(** * The digital-twin conversation subsystem

  A shallow embedding of the two pieces of the portfolio site that carry
  control flow:

  - the server-side proxy [web/src/app/api/digital-twin/route.ts]
    (credential resolution, message sanitisation, provider call, reply
    normalisation), in [Module Route];
  - the client-side chat component [web/src/components/digital-twin-chat.tsx]
    (the send/receive state machine), in [Module Chat];

  and of the two talking to each other, in [Module Exchange].  The
  definitions come first; the properties proved of them follow, module by
  module.

  JavaScript strings are modelled by [string]: a character is a UTF-16 code
  unit restricted to the range 0..255.  JSON numbers are carried by their
  JavaScript rendering ([String(n)]); the code never computes with them. *)

From Stdlib Require Import ZArith String Ascii DecimalString DecimalPos DecimalZ Lia.
From stdpp Require Import base list strings.

Set Warnings "-register-all".

Local Open Scope string_scope.
Local Open Scope list_scope.

(** ** JavaScript string primitives used by the two files *)

Module JsString.

Definition LF : ascii := ascii_of_nat 10.
Definition CR : ascii := ascii_of_nat 13.

(** [WhiteSpace] and [LineTerminator] code units below 256: TAB, LF, VT, FF,
    CR, SP and NBSP.  These are what [String.prototype.trim] removes. *)
Definition isWhiteSpace (c : ascii) : bool :=
  let n := N_of_ascii c in
  ((9 <=? n) && (n <=? 13) || (n =? 32) || (n =? 160))%N.

Definition isEmpty (s : string) : bool :=
  match s with EmptyString => true | String _ _ => false end.

Fixpoint trimStart (s : string) : string :=
  match s with
  | EmptyString => EmptyString
  | String c r => if isWhiteSpace c then trimStart r else s
  end.

Fixpoint trimEnd (s : string) : string :=
  match s with
  | EmptyString => EmptyString
  | String c r =>
      let r' := trimEnd r in
      if isWhiteSpace c && isEmpty r' then EmptyString else String c r'
  end.

(** [s.trim()] *)
Definition trim (s : string) : string := trimEnd (trimStart s).

(** [s.startsWith(p)] *)
Definition startsWith (p s : string) : bool := String.prefix p s.

(** [s.indexOf(needle)]: first position of [needle], or [-1]. *)
Fixpoint indexOf (needle s : string) : Z :=
  if String.prefix needle s then 0%Z
  else match s with
       | EmptyString => (-1)%Z
       | String _ r =>
           let i := indexOf needle r in
           if (i <? 0)%Z then (-1)%Z else (i + 1)%Z
       end.

Fixpoint dropChars (n : nat) (s : string) : string :=
  match n, s with
  | O, _ => s
  | S _, EmptyString => EmptyString
  | S n', String _ r => dropChars n' r
  end.

(** The start position [slice(start)] resolves to, for a sequence of
    length [len]: negative positions count from the end, and the result is
    clamped to [0..len]. *)
Definition sliceStart (start : Z) (len : nat) : nat :=
  let l := Z.of_nat len in
  Z.to_nat (if (start <? 0)%Z then Z.max (l + start) 0 else Z.min start l).

(** [s.slice(start)] *)
Definition slice (start : Z) (s : string) : string :=
  dropChars (sliceStart start (String.length s)) s.

Fixpoint takeChars (n : nat) (s : string) : string :=
  match n, s with
  | O, _ => EmptyString
  | S _, EmptyString => EmptyString
  | S n', String c r => String c (takeChars n' r)
  end.

(** [s.slice(start, stop)]: both positions are resolved as in [slice(start)];
    the result is empty when the second does not lie after the first. *)
Definition sliceRange (start stop : Z) (s : string) : string :=
  let len := String.length s in
  let from := sliceStart start len in
  let to := sliceStart stop len in
  takeChars (to - from) (dropChars from s).

(** [arr.slice(start)] *)
Definition sliceList {A} (start : Z) (l : list A) : list A :=
  drop (sliceStart start (length l)) l.

Definition APOSTROPHE : ascii := ascii_of_nat 39.
Definition QUOTATION_MARK : ascii := ascii_of_nat 34.

Definition isQuote (c : ascii) : bool :=
  Ascii.eqb c APOSTROPHE || Ascii.eqb c QUOTATION_MARK.

(** Removes the last character when it is a quote: the second alternative
    of the pattern, a quote anchored at the end. *)
Fixpoint dropFinalQuote (s : string) : string :=
  match s with
  | EmptyString => EmptyString
  | String c EmptyString => if isQuote c then EmptyString else s
  | String c r => String c (dropFinalQuote r)
  end.

(** The global [replace] of a quote anchored at the start or a quote
    anchored at the end by the empty string.  The scan goes left to right:
    a quote at position 0 is consumed by the first alternative, and a quote
    in last position that has not been consumed is removed by the second. *)
Definition stripEdgeQuotes (s : string) : string :=
  match s with
  | EmptyString => EmptyString
  | String c r => if isQuote c then dropFinalQuote r else dropFinalQuote s
  end.

Definition startsWithLF (s : string) : bool :=
  match s with String c _ => Ascii.eqb c LF | EmptyString => false end.

(** [s.split(/\r?\n/)]: a line feed, optionally preceded by one carriage
    return, separates two lines. *)
Fixpoint splitLines (s : string) : list string :=
  match s with
  | EmptyString => [EmptyString]
  | String c r =>
      if Ascii.eqb c LF then EmptyString :: splitLines r
      else if Ascii.eqb c CR && startsWithLF r then splitLines r
      else match splitLines r with
           | l :: ls => String c l :: ls
           | [] => [String c EmptyString]
           end
  end.

(** [parts.join(sep)] on an array of strings *)
Fixpoint join (sep : string) (parts : list string) : string :=
  match parts with
  | [] => EmptyString
  | [p] => p
  | p :: rest => p ++ sep ++ join sep rest
  end.

(** [String(n)] for an integral Number below 1e21, as produced by a
    template literal. *)
Definition decimal (z : Z) : string := NilZero.string_of_int (Z.to_int z).

End JsString.

(** ** JSON values as [JSON.parse] and [response.json()] deliver them *)

Module Json.
Import JsString.

Inductive json : Type :=
| JNull
| JBool (b : bool)
| JNum (rendering : string)
| JStr (s : string)
| JArr (items : list json)
| JObj (fields : list (string * json)).

(** A JavaScript value reached from parsed JSON: [None] is [undefined]. *)
Definition value : Type := option json.

(** What a [throw] carries: an [Error] object with its [message], or any
    other value. *)
Inductive thrown : Type :=
| ThrownError (message : string)
| ThrownOther.

Inductive result (A : Type) : Type :=
| Ok (a : A)
| Throw (t : thrown).
Arguments Ok {A} a.
Arguments Throw {A} t.

(** The [TypeError] raised by a property read on [null] (V8's wording). *)
Definition nullRead (key : string) : thrown :=
  ThrownError ("Cannot read properties of null (reading '" ++ key ++ "')").

(** The [TypeError] raised by a conversion to a primitive that finds no
    method to call (V8's wording). *)
Definition notPrimitive : thrown :=
  ThrownError "Cannot convert object to primitive value".

(** [arr.map(f)] for a callback that may throw: the elements are visited in
    order and the first throw ends the call. *)
Fixpoint mapR {A B : Type} (f : A -> result B) (l : list A) : result (list B) :=
  match l with
  | [] => Ok []
  | x :: rest =>
      match f x with
      | Throw t => Throw t
      | Ok y =>
          match mapR f rest with
          | Throw t => Throw t
          | Ok ys => Ok (y :: ys)
          end
      end
  end.

(** Own property [key] of a parsed object; for a repeated key the last
    occurrence wins, as in [JSON.parse]. *)
Fixpoint lookupField (key : string) (fields : list (string * json)) : value :=
  match fields with
  | [] => None
  | (k, v) :: rest =>
      match lookupField key rest with
      | Some v' => Some v'
      | None => if String.eqb k key then Some v else None
      end
  end.

(** [key in obj] for a parsed object *)
Definition hasField (key : string) (fields : list (string * json)) : bool :=
  match lookupField key fields with Some _ => true | None => false end.

(** [j.key] for one of the keys the code reads ([role], [content],
    [messages], [error], [message], [choices], [reply], [type], [text]):
    none of them is a built-in property of strings, numbers, booleans or
    arrays, so only objects answer; [null] throws. *)
Definition getProp (j : json) (key : string) : result value :=
  match j with
  | JNull => Throw (nullRead key)
  | JObj fields => Ok (lookupField key fields)
  | _ => Ok None
  end.

(** [v === "s"] for a string literal *)
Definition strictEqStr (v : value) (s : string) : bool :=
  match v with
  | Some (JStr x) => String.eqb x s
  | _ => false
  end.

(** [v?.key] *)
Definition optProp (v : value) (key : string) : value :=
  match v with
  | Some (JObj fields) => lookupField key fields
  | _ => None
  end.

(** [v?.[0]] *)
Definition optIndex0 (v : value) : value :=
  match v with
  | Some (JArr items) => head items
  | Some (JObj fields) => lookupField "0" fields
  | Some (JStr (String c _)) => Some (JStr (String c EmptyString))
  | _ => None
  end.

(** JavaScript truthiness *)
Definition truthy (v : value) : bool :=
  match v with
  | None | Some JNull => false
  | Some (JBool b) => b
  | Some (JNum r) => negb (String.eqb r "0")
  | Some (JStr s) => negb (isEmpty s)
  | Some (JArr _) | Some (JObj _) => true
  end.

(** [String(j)], which is also the conversion [new Error(j)] applies to its
    argument.  An object is converted by the first of [toString] and
    [valueOf] that is callable and returns a primitive.  For a parsed object
    these are the methods of [Object.prototype], giving the fixed text, unless
    the object has a key [toString] of its own: its value, being parsed data,
    is not callable, [valueOf] returns the object itself, and the conversion
    throws.  An array is converted by joining the conversions of its
    elements, from left to right, with commas, [null] counting as the empty
    string. *)
Fixpoint toStr (j : json) : result string :=
  match j with
  | JNull => Ok "null"
  | JBool true => Ok "true"
  | JBool false => Ok "false"
  | JNum r => Ok r
  | JStr s => Ok s
  | JArr items =>
      match
        (fix elements (l : list json) : result (list string) :=
           match l with
           | [] => Ok []
           | x :: rest =>
               match (match x with JNull => Ok EmptyString | _ => toStr x end) with
               | Throw t => Throw t
               | Ok part =>
                   match elements rest with
                   | Throw t => Throw t
                   | Ok parts => Ok (part :: parts)
                   end
               end
           end) items
      with
      | Throw t => Throw t
      | Ok parts => Ok (join "," parts)
      end
  | JObj fields =>
      if hasField "toString" fields then Throw notPrimitive
      else Ok "[object Object]"
  end.

End Json.

(** ** What an awaited [fetch] followed by [response.json()] delivers *)

Module Fetch.
Import Json.

(** The body of a fetched response: [response.json()] resolves to parsed
    data or rejects with a [SyntaxError]. *)
Inductive Body : Type :=
| BodyJson (data : json)
| BodyInvalid (syntaxError : string).

(** What [await fetch(...)] gives: a rejection, or a response with its
    [ok] flag and body. *)
Inductive FetchOutcome : Type :=
| FetchRejected (reason : thrown)
| FetchResponded (ok : bool) (body : Body).

End Fetch.

(** ** The proxy route: [web/src/app/api/digital-twin/route.ts] *)

Module Route.
Import JsString Json Fetch.

Definition OPENROUTER_URL : string := "https://openrouter.ai/api/v1/chat/completions".
Definition OPENROUTER_MODEL : string := "gpt-oss-120b".
Definition MAX_MESSAGES : Z := 12.

Definition DIGITAL_TWIN_SYSTEM_PROMPT : string := "
You are AdrianAI, a digital twin for Adrian Kolek.

Role and style:
- Speak in first person when describing Adrian's experience.
- Be confident, professional, and concise.
- Keep answers factual and grounded in the profile below.
- If a question asks for unknown details, say you do not have that information.
- Do not invent companies, dates, credentials, metrics, or outcomes.

Career profile facts:
- Name: Adrian Kolek
- Current role: Lead Architect at AQA Architecture and Innovation (Apr 2022 - Present), based in Milton Keynes, England, UK.
- Core specialization: Azure PaaS modernization and migration using cloud-optimized patterns.
- Strengths: Solution architecture, enterprise architecture, board-level engagement, strategy-to-delivery leadership, mentoring, hands-on engineering when needed.

Experience highlights:
- Product Architect at DRS Data Services (Jan 2015 - May 2022).
- Solutions Architect at DRS Data Services (Mar 2010 - Feb 2015):
  - Architected online exam-marking products used at very high volume in the UK and India.
  - Architected election systems used for high-profile London elections (2012 and 2016).
- Deputy Software Development Manager at DRS (Dec 2007 - Mar 2010):
  - Led technical direction, agile standardization, and quality engineering initiatives.
- Technical Team Lead and Senior Developer roles across DRS, Webdev Consulting, and National Mutual Life.
- Early foundation in end-to-end software development, systems design, and mentoring.

Certifications:
- Microsoft Certified: Azure Solutions Architect Expert
- Microsoft Certified Solutions Developer (MCSD)
- Microsoft Certified Professional (MCP) - Windows Applications
".

(** *** The process the handler runs in *)

(** An outbound call to the completion provider. *)
Record ProviderRequest : Type := {
  url : string;
  authorization : string;
  referer : string;
  title : string;
  requestBody : json
}.

(** The part of the Node process the handler touches: two environment
    variables, the outcome of [readFileSync] on the [.env] file of the
    parent of the working directory, and two ghost fields that record the
    effects performed so far. *)
Record World : Type := {
  env_OPENROUTER_API_KEY : option string;
  env_NEXT_PUBLIC_SITE_URL : option string;
  parentEnvFile : result string;
  fileReads : nat;
  providerCalls : list ProviderRequest
}.

(** Computations that read and update the process. *)
Definition M (A : Type) : Type := World -> A * World.

#[global] Instance M_ret : MRet M := fun A a w => (a, w).
#[global] Instance M_bind : MBind M :=
  fun A B k m w => let (a, w') := m w in k a w'.

Definition getenv_OPENROUTER_API_KEY : M (option string) :=
  fun w => (env_OPENROUTER_API_KEY w, w).

Definition getenv_NEXT_PUBLIC_SITE_URL : M (option string) :=
  fun w => (env_NEXT_PUBLIC_SITE_URL w, w).

(** The process after one more read of the [.env] file of the parent
    directory. *)
Definition noteFileRead (w : World) : World :=
  {| env_OPENROUTER_API_KEY := env_OPENROUTER_API_KEY w;
     env_NEXT_PUBLIC_SITE_URL := env_NEXT_PUBLIC_SITE_URL w;
     parentEnvFile := parentEnvFile w;
     fileReads := S (fileReads w);
     providerCalls := providerCalls w |}.

(** The process after one more call to the provider. *)
Definition noteProviderCall (req : ProviderRequest) (w : World) : World :=
  {| env_OPENROUTER_API_KEY := env_OPENROUTER_API_KEY w;
     env_NEXT_PUBLIC_SITE_URL := env_NEXT_PUBLIC_SITE_URL w;
     parentEnvFile := parentEnvFile w;
     fileReads := fileReads w;
     providerCalls := providerCalls w ++ [req] |}.

(** [readFileSync(resolve(process.cwd(), "..", ".env"), "utf8")]; every
    call is one read of the file. *)
Definition readFileSync_parentEnv : M (result string) :=
  fun w => (parentEnvFile w, noteFileRead w).

(** [fetch(url, init)] against a provider that answers [provider req]. *)
Definition fetch (provider : ProviderRequest -> FetchOutcome)
    (req : ProviderRequest) : M FetchOutcome :=
  fun w => (provider req, noteProviderCall req w).

(** *** Credential resolution *)

Definition isKeyLine (line : string) : bool :=
  startsWith "OPENROUTER_API_KEY=" (trim line).

(** The body of the [try] block once the file content is there. *)
Definition keyFromEnvFile (raw : string) : option string :=
  let lines := splitLines raw in
  match List.find isKeyLine lines with
  | None => None
  | Some keyLine =>
      if isEmpty keyLine then None
      else
        let value :=
          stripEdgeQuotes (trim (slice (indexOf "=" keyLine + 1) keyLine)) in
        if isEmpty value then None else Some value
  end.

(** Lines 49-62: the [try] block and its [catch], given what [readFileSync]
    did. *)
Definition keyFromRead (r : result string) : option string :=
  match r with
  | Ok raw => keyFromEnvFile raw
  | Throw _ => None
  end.

Definition readApiKeyFromParentEnv : M (option string) :=
  r ← readFileSync_parentEnv;
  mret (keyFromRead r).

(** [process.env.OPENROUTER_API_KEY?.trim()] when it is truthy. *)
Definition envApiKey (env : option string) : option string :=
  match env with
  | Some v => let key := trim v in if isEmpty key then None else Some key
  | None => None
  end.

Definition getApiKey : M (option string) :=
  env ← getenv_OPENROUTER_API_KEY;
  match envApiKey env with
  | Some key => mret (Some key)
  | None => readApiKeyFromParentEnv
  end.

(** *** Reply normalisation *)

(** The callback of [content.map]; [String] of line 88 may throw. *)
Definition chunkText (chunk : json) : result string :=
  match chunk with
  | JStr s => Ok s
  | JObj fields =>
      if hasField "type" fields && hasField "text" fields
         && strictEqStr (lookupField "type" fields) "text"
      then
        match lookupField "text" fields with
        | None | Some JNull => Ok EmptyString
        | Some text => toStr text
        end
      else Ok EmptyString
  | _ => Ok EmptyString
  end.

(** The text returned, or what the call throws. *)
Definition extractAssistantText (content : value) : result string :=
  match content with
  | Some (JStr s) => Ok (trim s)
  | Some (JArr items) =>
      match mapR chunkText items with
      | Throw t => Throw t
      | Ok texts =>
          let chunks := List.filter (fun s => negb (isEmpty s)) texts in
          Ok (trim (join (String LF EmptyString) chunks))
      end
  | _ => Ok EmptyString
  end.

(** *** Sanitisation of the incoming messages *)

(** The callback of [payload.messages.filter]; reading [role] of a [null]
    entry throws. *)
Definition isSafeMessage (message : json) : result bool :=
  match getProp message "role" with
  | Throw t => Throw t
  | Ok role =>
      if strictEqStr role "user" || strictEqStr role "assistant" then
        match getProp message "content" with
        | Throw t => Throw t
        | Ok (Some (JStr content)) => Ok (0 <? String.length (trim content))%nat
        | Ok _ => Ok false
        end
      else Ok false
  end.

(** [arr.filter(p)] for a callback that may throw. *)
Fixpoint filterR (p : json -> result bool) (l : list json) : result (list json) :=
  match l with
  | [] => Ok []
  | x :: rest =>
      match p x with
      | Throw t => Throw t
      | Ok keep =>
          match filterR p rest with
          | Throw t => Throw t
          | Ok rest' => Ok (if keep then x :: rest' else rest')
          end
      end
  end.

(** The initialiser of [safeMessages]. *)
Definition safeMessages (payload : json) : result (list json) :=
  match getProp payload "messages" with
  | Throw t => Throw t
  | Ok (Some (JArr messages)) =>
      match filterR isSafeMessage messages with
      | Throw t => Throw t
      | Ok kept => Ok (sliceList (- MAX_MESSAGES) kept)
      end
  | Ok _ => Ok []
  end.

(** *** The handler *)

Record Response : Type := {
  status : Z;
  body : json
}.

(** [NextResponse.json({ error }, { status })] *)
Definition errorResponse (status : Z) (error : json) : Response :=
  {| status := status; body := JObj [("error", error)] |}.

Definition missingKeyResponse : Response :=
  errorResponse 500
    (JStr "OPENROUTER_API_KEY is missing. Add it to web/.env.local or ../.env.").
Definition invalidBodyResponse : Response :=
  errorResponse 400 (JStr "Invalid JSON body.").
Definition noValidMessageResponse : Response :=
  errorResponse 400 (JStr "Provide at least one valid message.").
Definition emptyReplyResponse : Response :=
  errorResponse 502 (JStr "Model returned an empty response.").
Definition unreachableResponse : Response :=
  errorResponse 502 (JStr "Unable to reach OpenRouter. Please try again.").

(** [NextResponse.json({ reply, model: OPENROUTER_MODEL })] *)
Definition successResponse (reply : string) : Response :=
  {| status := 200;
     body := JObj [("reply", JStr reply); ("model", JStr OPENROUTER_MODEL)] |}.

(** [process.env.NEXT_PUBLIC_SITE_URL || "http://localhost:3000"] *)
Definition refererOf (site : option string) : string :=
  match site with
  | Some u => if isEmpty u then "http://localhost:3000" else u
  | None => "http://localhost:3000"
  end.

Definition providerRequest (apiKey siteUrl : string) (safe : list json)
    : ProviderRequest :=
  {| url := OPENROUTER_URL;
     authorization := "Bearer " ++ apiKey;
     referer := siteUrl;
     title := "Adrian Kolek Digital Twin";
     requestBody :=
       JObj [("model", JStr OPENROUTER_MODEL);
             ("temperature", JNum "0.4");
             ("max_tokens", JNum "500");
             ("messages",
              JArr (JObj [("role", JStr "system");
                          ("content", JStr (trim DIGITAL_TWIN_SYSTEM_PROMPT))]
                    :: safe))] |}.

(** [data.choices?.[0]?.message?.content] *)
Definition firstChoiceContent (data : json) : result value :=
  match getProp data "choices" with
  | Throw t => Throw t
  | Ok choices => Ok (optProp (optProp (optIndex0 choices) "message") "content")
  end.

(** [data.error?.message || "OpenRouter request failed."] *)
Definition providerErrorMessage (data : json) : result json :=
  match getProp data "error" with
  | Throw t => Throw t
  | Ok error =>
      let message := optProp error "message" in
      match message with
      | Some m => Ok (if truthy message then m else JStr "OpenRouter request failed.")
      | None => Ok (JStr "OpenRouter request failed.")
      end
  end.

(** Lines 155-177: what the handler does with a fetched response; a throw
    lands in the [catch] of line 178. *)
Definition respondTo (outcome : FetchOutcome) : Response :=
  match outcome with
  | FetchRejected _ => unreachableResponse
  | FetchResponded _ (BodyInvalid _) => unreachableResponse
  | FetchResponded ok (BodyJson data) =>
      if negb ok then
        match providerErrorMessage data with
        | Throw _ => unreachableResponse
        | Ok message => errorResponse 502 message
        end
      else
        match firstChoiceContent data with
        | Throw _ => unreachableResponse
        | Ok content =>
            match extractAssistantText content with
            | Throw _ => unreachableResponse
            | Ok reply =>
                if isEmpty reply then emptyReplyResponse else successResponse reply
            end
        end
  end.

(** [POST(request)]: [requestJson] is what [request.json()] resolves to
    ([None] when it rejects), [provider] is the completion provider.  The
    result is [Throw] when an exception escapes the handler. *)
Definition POST (provider : ProviderRequest -> FetchOutcome)
    (requestJson : option json) : M (result Response) :=
  apiKey ← getApiKey;
  match apiKey with
  | None => mret (Ok missingKeyResponse)
  | Some apiKey =>
      if isEmpty apiKey then mret (Ok missingKeyResponse)
      else
        match requestJson with
        | None => mret (Ok invalidBodyResponse)
        | Some payload =>
            match safeMessages payload with
            | Throw t => mret (Throw t)
            | Ok safe =>
                if (length safe =? 0)%nat then mret (Ok noValidMessageResponse)
                else
                  site ← getenv_NEXT_PUBLIC_SITE_URL;
                  outcome ← fetch provider
                              (providerRequest apiKey (refererOf site) safe);
                  mret (Ok (respondTo outcome))
            end
        end
  end.

(** The handler serving the requests of one process, one after the
    other. *)
Fixpoint serve (provider : ProviderRequest -> FetchOutcome)
    (requests : list (option json)) : M (list (result Response)) :=
  match requests with
  | [] => mret []
  | requestJson :: rest =>
      response ← POST provider requestJson;
      responses ← serve provider rest;
      mret (response :: responses)
  end.

End Route.

(** ** The chat component: [web/src/components/digital-twin-chat.tsx] *)

Module Chat.
Import JsString Json Fetch.

Inductive ChatRole : Type := user | assistant.

(** The string a role is at run time. *)
Definition roleName (role : ChatRole) : string :=
  match role with user => "user" | assistant => "assistant" end.

Record ChatMessage : Type := {
  id : string;
  role : ChatRole;
  content : string
}.

Definition starterPrompts : list string :=
  [ "What are Adrian's strongest architecture skills?";
    "What are the biggest milestones in his career journey?";
    "How does Adrian approach modernization on Azure?";
    "How does Adrian balance board-level strategy with delivery?" ].

(** What the clock and the random source answer during one call of
    [newMessage]: [Date.now()], a whole number of milliseconds, and the
    rendering of [Math.random()] in base 36. *)
Record Entropy : Type := {
  now : Z;
  random36 : string
}.

Definition newMessage (e : Entropy) (role : ChatRole) (content : string)
    : ChatMessage :=
  {| id := roleName role ++ "-" ++ decimal (now e) ++ "-"
             ++ sliceRange 2 8 (random36 e);
     role := role;
     content := content |}.

(** The four [useState] cells of the component. *)
Record ChatState : Type := {
  messages : list ChatMessage;
  draft : string;
  isLoading : bool;
  error : option string
}.

Definition GREETING : string :=
  "I am AdrianAI, a digital twin assistant. Ask me anything about Adrian's career journey, architecture leadership, and cloud modernization expertise.".

(** The state of the first render: the initialisers of the [useState]
    calls. *)
Definition DigitalTwinChat (e : Entropy) : ChatState :=
  {| messages := [newMessage e assistant GREETING];
     draft := EmptyString;
     isLoading := false;
     error := None |}.

Definition isUser (message : ChatMessage) : bool :=
  match role message with user => true | assistant => false end.

Definition hasUserMessages (st : ChatState) : bool :=
  existsb isUser (messages st).

(** The body of the request: [JSON.stringify] of the messages projected to
    their [role] and [content], as the route parses it back. *)
Definition wireMessage (message : ChatMessage) : json :=
  JObj [("role", JStr (roleName (role message)));
        ("content", JStr (content message))].

Definition outboundBody (nextMessages : list ChatMessage) : json :=
  JObj [("messages", JArr (map wireMessage nextMessages))].

(** [sendPrompt], lines 45-70: from the call to the moment the request is
    issued.  The handlers of a render read the state of that render; [st] is
    the state of the render the event reaches.  The second component is the
    body of the request issued, if any. *)
Definition sendPrompt_begin (e : Entropy) (rawPrompt : string) (st : ChatState)
    : ChatState * option json :=
  let prompt := trim rawPrompt in
  if isEmpty prompt || isLoading st then (st, None)
  else
    let userMessage := newMessage e user prompt in
    let nextMessages := messages st ++ [userMessage] in
    ({| messages := nextMessages;
        draft := EmptyString;
        isLoading := true;
        error := None |},
     Some (outboundBody nextMessages)).

Definition NO_RESPONSE : string := "Unable to get a response from AdrianAI.".
Definition NO_CONNECTION : string :=
  "Unable to connect to the digital twin right now.".

(** Lines 72-77: the rest of the [try] block up to the [throw]; the reply, or
    what is thrown. *)
Definition replyOf (outcome : FetchOutcome) : result string :=
  match outcome with
  | FetchRejected reason => Throw reason
  | FetchResponded _ (BodyInvalid syntaxError) => Throw (ThrownError syntaxError)
  | FetchResponded ok (BodyJson data) =>
      match getProp data "reply" with
      | Throw t => Throw t
      | Ok r =>
          let reply := match r with Some (JStr s) => trim s | _ => EmptyString end in
          if negb ok || isEmpty reply then
            match getProp data "error" with
            | Throw t => Throw t
            | Ok None | Ok (Some JNull) => Throw (ThrownError NO_RESPONSE)
            | Ok (Some v) =>
                match toStr v with
                | Throw t => Throw t
                | Ok message => Throw (ThrownError message)
                end
            end
          else Ok reply
      end
  end.

(** The [catch] clause: the message shown for what was thrown. *)
Definition catchMessage (sendError : thrown) : string :=
  match sendError with
  | ThrownError message => message
  | ThrownOther => NO_CONNECTION
  end.

(** [sendPrompt], lines 72-88: the awaited request settles.  The updates
    are relative to the state at that moment. *)
Definition sendPrompt_settle (e : Entropy) (outcome : FetchOutcome)
    (st : ChatState) : ChatState :=
  match replyOf outcome with
  | Ok reply =>
      {| messages := messages st ++ [newMessage e assistant reply];
         draft := draft st;
         isLoading := false;
         error := error st |}
  | Throw sendError =>
      {| messages := messages st;
         draft := draft st;
         isLoading := false;
         error := Some (catchMessage sendError) |}
  end.

(** [onChange] of the text area. *)
Definition setDraft (text : string) (st : ChatState) : ChatState :=
  {| messages := messages st;
     draft := text;
     isLoading := isLoading st;
     error := error st |}.

(** [handleSubmit]: the form sends the draft. *)
Definition handleSubmit (e : Entropy) (st : ChatState) : ChatState * option json :=
  sendPrompt_begin e (draft st) st.

(** The [disabled] attribute of the submit button. *)
Definition submitDisabled (st : ChatState) : bool :=
  isLoading st || isEmpty (trim (draft st)).

(** The label of the submit button. *)
Definition submitLabel (st : ChatState) : string :=
  if isLoading st then "Sending..." else "Ask AdrianAI".

(** The suggested prompts are rendered while no user message exists. *)
Definition promptRowShown (st : ChatState) : bool := negb (hasUserMessages st).

(** The error paragraph is rendered when [error] is truthy. *)
Definition errorShown (st : ChatState) : option string :=
  match error st with
  | Some message => if isEmpty message then None else Some message
  | None => None
  end.

(** *** Sequences of operations *)

Inductive Op : Type :=
| Submit (rawPrompt : string)
| Settle (outcome : FetchOutcome).

(** One operation, with the clock and random readings available to it. *)
Definition apply (st : ChatState) (step : Entropy * Op) : ChatState :=
  match step with
  | (e, Submit rawPrompt) => fst (sendPrompt_begin e rawPrompt st)
  | (e, Settle outcome) => sendPrompt_settle e outcome st
  end.

Definition run (e0 : Entropy) (steps : list (Entropy * Op)) : ChatState :=
  fold_left apply steps (DigitalTwinChat e0).

(** The component together with the number of its requests that have not
    been answered yet.  An answer arrives only for a request that was
    issued. *)
Record Session : Type := {
  view : ChatState;
  inFlight : nat
}.

Definition act (s : Session) (step : Entropy * Op) : Session :=
  match step with
  | (e, Submit rawPrompt) =>
      match sendPrompt_begin e rawPrompt (view s) with
      | (st, Some _) => {| view := st; inFlight := S (inFlight s) |}
      | (st, None) => {| view := st; inFlight := inFlight s |}
      end
  | (e, Settle outcome) =>
      match inFlight s with
      | O => s
      | S n => {| view := sendPrompt_settle e outcome (view s); inFlight := n |}
      end
  end.

Definition session (e0 : Entropy) (steps : list (Entropy * Op)) : Session :=
  fold_left act steps {| view := DigitalTwinChat e0; inFlight := 0 |}.

End Chat.

(** ** The component talking to the route *)

Module Exchange.
Import JsString Json Fetch Route Chat.

(** What the [fetch] of the component sees of a response the handler
    returned: [ok] for a status from 200 to 299, and the body the handler
    serialised. *)
Definition fetched (response : Response) : FetchOutcome :=
  FetchResponded ((200 <=? status response) && (status response <=? 299))%Z
                 (BodyJson (body response)).

(** The body of the answer to a request whose handler threw is not JSON. *)
Definition NOT_JSON : string := "Unexpected end of JSON input".

(** One round: [sendPrompt] up to the request, the handler on the body of
    that request, and [sendPrompt] from the response on.  [e1] is read when
    the prompt is sent, [e2] when the answer is there. *)
Definition exchange (provider : ProviderRequest -> FetchOutcome)
    (e1 e2 : Entropy) (rawPrompt : string) (st : ChatState) (w : World)
    : ChatState * World :=
  match sendPrompt_begin e1 rawPrompt st with
  | (st1, None) => (st1, w)
  | (st1, Some requestBody) =>
      match POST provider (Some requestBody) w with
      | (Ok response, w') => (sendPrompt_settle e2 (fetched response) st1, w')
      | (Throw _, w') =>
          (sendPrompt_settle e2 (FetchResponded false (BodyInvalid NOT_JSON)) st1, w')
      end
  end.

End Exchange.

(** ** The behaviour the specification words, for comparison with the code *)

Module Stated.
Import JsString Json.

(** An entry of the incoming list that sanitisation is to keep: its role is
    user or assistant and its content is a string that is not empty once
    trimmed. *)
Definition keptEntry (entry : json) : bool :=
  match entry with
  | JObj fields =>
      match lookupField "role" fields, lookupField "content" fields with
      | Some (JStr role), Some (JStr content) =>
          (String.eqb role "user" || String.eqb role "assistant")
          && negb (isEmpty (trim content))
      | _, _ => false
      end
  | _ => false
  end.

(** The last [n] elements of a list, all of it when it is shorter. *)
Definition lastN {A} (n : nat) (l : list A) : list A :=
  drop (length l - n) l.

(** The text field of a chunk whose discriminant tag is text. *)
Definition taggedText (chunk : json) : option string :=
  match chunk with
  | JObj fields =>
      match lookupField "type" fields, lookupField "text" fields with
      | Some (JStr tag), Some (JStr text) =>
          if String.eqb tag "text" then Some text else None
      | _, _ => None
      end
  | _ => None
  end.

(** Normalisation of a chunk sequence when exactly the chunks tagged text
    contribute their text field. *)
Definition joinTaggedTexts (chunks : list json) : string :=
  trim (join (String LF EmptyString) (omap taggedText chunks)).

(** What a chunk contributes: a chunk that is a string, itself; an object
    with a type field equal to text and a text field, that field rendered as
    a string, or nothing when the field is null; any other chunk, nothing.
    Rendering a field may throw. *)
Definition contribution (chunk : json) : result (option string) :=
  match chunk with
  | JStr s => Ok (Some s)
  | JObj fields =>
      match lookupField "type" fields, lookupField "text" fields with
      | Some (JStr tag), Some text =>
          if String.eqb tag "text" then
            match text with
            | JNull => Ok None
            | _ =>
                match toStr text with
                | Throw t => Throw t
                | Ok s => Ok (Some s)
                end
            end
          else Ok None
      | _, _ => Ok None
      end
  | _ => Ok None
  end.

(** The non-empty contributions of the chunks, in order; the first chunk
    whose rendering throws ends the collection. *)
Fixpoint contributions (chunks : list json) : result (list string) :=
  match chunks with
  | [] => Ok []
  | chunk :: rest =>
      match contribution chunk with
      | Throw t => Throw t
      | Ok c =>
          match contributions rest with
          | Throw t => Throw t
          | Ok cs =>
              Ok (match c with
                  | Some s => if isEmpty s then cs else s :: cs
                  | None => cs
                  end)
          end
      end
  end.

(** Normalisation with the non-empty contributions joined by line feeds. *)
Definition normalized (content : value) : result string :=
  match content with
  | Some (JStr s) => Ok (trim s)
  | Some (JArr chunks) =>
      match contributions chunks with
      | Throw t => Throw t
      | Ok cs => Ok (trim (join (String LF EmptyString) cs))
      end
  | _ => Ok EmptyString
  end.

(** The error field of a response body; nothing when the body is not an
    object, has no such field, or holds null there. *)
Definition errorValue (data : json) : option json :=
  match data with
  | JObj fields =>
      match lookupField "error" fields with
      | None | Some JNull => None
      | Some v => Some v
      end
  | _ => None
  end.

(** The text [new Error(v)] ends up showing: the rendering of [v], or the
    message of the error the rendering throws. *)
Definition shownText (v : json) : string :=
  match toStr v with
  | Ok text => text
  | Throw t => Chat.catchMessage t
  end.


(** A provider call that gives the handler nothing to read: the call is
    rejected, the body of the answer is not JSON, or it is null. *)
Definition unreadable (outcome : Fetch.FetchOutcome) : bool :=
  match outcome with
  | Fetch.FetchRejected _ => true
  | Fetch.FetchResponded _ (Fetch.BodyInvalid _) => true
  | Fetch.FetchResponded _ (Fetch.BodyJson JNull) => true
  | _ => false
  end.

End Stated.

(** ** Shapes of strings and lists that the statements below speak of *)

Module Shape.
Import JsString Json.

(** A string [trimStart] leaves alone: empty, or led by a character that is
    not white space. *)
Definition ledClean (s : string) : bool :=
  match s with
  | EmptyString => true
  | String c _ => negb (isWhiteSpace c)
  end.

Definition firstChar (s : string) : option ascii :=
  match s with
  | EmptyString => None
  | String c _ => Some c
  end.

Fixpoint lastChar (s : string) : option ascii :=
  match s with
  | EmptyString => None
  | String c EmptyString => Some c
  | String _ r => lastChar r
  end.

(** A character at the edge of a string that [trim] does not touch. *)
Definition inkEdge (c : option ascii) : bool :=
  match c with
  | Some c => negb (isWhiteSpace c)
  | None => false
  end.

(** A character at the edge of a value that neither [trim] nor the quote
    pattern touches. *)
Definition plainEdge (c : option ascii) : bool :=
  match c with
  | Some c => negb (isWhiteSpace c) && negb (isQuote c)
  | None => false
  end.

(** No line feed and no carriage return. *)
Fixpoint noLineBreak (s : string) : bool :=
  match s with
  | EmptyString => true
  | String c r => negb (Ascii.eqb c LF) && negb (Ascii.eqb c CR) && noLineBreak r
  end.

(** A credential as it can stand in a [KEY=value] line: no line break,
    and at both ends a character that is neither white space nor a quote (so
    it is not empty). *)
Definition plainValue (v : string) : bool :=
  noLineBreak v && plainEdge (firstChar v) && plainEdge (lastChar v).

(** White space that stays within a line. *)
Fixpoint blank (s : string) : bool :=
  match s with
  | EmptyString => true
  | String c r =>
      isWhiteSpace c && negb (Ascii.eqb c LF) && negb (Ascii.eqb c CR) && blank r
  end.

(** No occurrence of the character [x]. *)
Fixpoint lacks (x : ascii) (s : string) : bool :=
  match s with
  | EmptyString => true
  | String c r => negb (Ascii.eqb c x) && lacks x r
  end.

(** Nothing, an apostrophe or a quotation mark. *)
Definition optionalQuote (q : string) : bool :=
  match q with
  | EmptyString => true
  | String c EmptyString => isQuote c
  | _ => false
  end.

(** A line feed, alone or after a carriage return. *)
Definition lineBreak (sep : string) : bool :=
  String.eqb sep (String LF EmptyString)
  || String.eqb sep (String CR (String LF EmptyString)).

End Shape.

(** * Properties *)

(** ** Strings *)

Module JsStringFacts.
Import JsString Shape.

Lemma isEmpty_true (s : string) : isEmpty s = true <-> s = EmptyString.
Proof. destruct s; simpl; split; intros H; congruence. Qed.

Lemma isEmpty_false (s : string) : isEmpty s = false <-> s <> EmptyString.
Proof. destruct s; simpl; split; intros H; congruence. Qed.

Lemma trimEnd_idem (s : string) : trimEnd (trimEnd s) = trimEnd s.
Proof.
  induction s as [|c r IH]; [reflexivity|].
  simpl. destruct (isWhiteSpace c && isEmpty (trimEnd r)) eqn:E; [reflexivity|].
  simpl. rewrite IH, E. reflexivity.
Qed.

Lemma trimStart_ledClean (s : string) : ledClean (trimStart s) = true.
Proof.
  induction s as [|c r IH]; [reflexivity|].
  simpl. destruct (isWhiteSpace c) eqn:E; [exact IH|]. simpl. now rewrite E.
Qed.

Lemma trimStart_fixed (s : string) : ledClean s = true -> trimStart s = s.
Proof.
  destruct s as [|c r]; [reflexivity|]. simpl.
  destruct (isWhiteSpace c); [discriminate|reflexivity].
Qed.

Lemma trimEnd_ledClean (s : string) : ledClean s = true -> ledClean (trimEnd s) = true.
Proof.
  destruct s as [|c r]; [reflexivity|]. simpl. intros H.
  destruct (isWhiteSpace c) eqn:E; [discriminate|]. simpl. now rewrite E.
Qed.

Lemma trim_ledClean (s : string) : ledClean (trim s) = true.
Proof. apply trimEnd_ledClean, trimStart_ledClean. Qed.

Lemma trim_idem (s : string) : trim (trim s) = trim s.
Proof.
  unfold trim at 1. rewrite (trimStart_fixed (trim s)) by apply trim_ledClean.
  apply trimEnd_idem.
Qed.

Lemma trim_empty : trim EmptyString = EmptyString.
Proof. reflexivity. Qed.

End JsStringFacts.

Module StringShapeFacts.
Import JsString Shape JsStringFacts.

#[local] Arguments String.append !_ _ / : simpl nomatch.

Lemma append_nil_r (s : string) : (s ++ EmptyString)%string = s.
Proof. induction s as [|c r IH]; simpl; [reflexivity | now f_equal]. Qed.

Lemma append_assoc (a b c : string) : ((a ++ b) ++ c = a ++ (b ++ c))%string.
Proof. induction a as [|x a IH]; simpl; [reflexivity | now f_equal]. Qed.

Lemma length_append (a b : string) :
  String.length (a ++ b) = String.length a + String.length b.
Proof. induction a as [|x a IH]; simpl; [reflexivity | now f_equal]. Qed.

Lemma blank_whiteSpace_head (c : ascii) (r : string) :
  blank (String c r) = true ->
  isWhiteSpace c = true /\ Ascii.eqb c LF = false /\ Ascii.eqb c CR = false
  /\ blank r = true.
Proof.
  simpl. intros H. repeat (apply andb_true_iff in H; destruct H as [H ?]).
  repeat split; try assumption; now apply negb_true_iff.
Qed.

Lemma blank_noLineBreak (s : string) : blank s = true -> noLineBreak s = true.
Proof.
  induction s as [|c r IH]; [reflexivity|]. intros H.
  apply blank_whiteSpace_head in H as (_ & H1 & H2 & H3).
  simpl. rewrite H1, H2. simpl. now apply IH.
Qed.

Lemma noLineBreak_app (a b : string) :
  noLineBreak (a ++ b) = noLineBreak a && noLineBreak b.
Proof.
  induction a as [|c r IH]; simpl; [reflexivity|]. rewrite IH.
  now rewrite !andb_assoc.
Qed.

Lemma trimStart_blank (pad s : string) :
  blank pad = true -> trimStart (pad ++ s) = trimStart s.
Proof.
  induction pad as [|c r IH]; [reflexivity|]. intros H.
  apply blank_whiteSpace_head in H as (H0 & _ & _ & H3).
  simpl. rewrite H0. now apply IH.
Qed.

Lemma trimEnd_all_blank (pad : string) : blank pad = true -> trimEnd pad = EmptyString.
Proof.
  induction pad as [|c r IH]; [reflexivity|]. intros H.
  apply blank_whiteSpace_head in H as (H0 & _ & _ & H3).
  simpl. rewrite (IH H3), H0. reflexivity.
Qed.

Lemma trimEnd_blank (s pad : string) :
  blank pad = true -> trimEnd (s ++ pad) = trimEnd s.
Proof.
  intros H. induction s as [|c r IH]; simpl; [now apply trimEnd_all_blank|].
  now rewrite IH.
Qed.

Lemma plainEdge_inkEdge (c : option ascii) : plainEdge c = true -> inkEdge c = true.
Proof.
  destruct c as [c|]; simpl; [|discriminate].
  intros H. now apply andb_true_iff in H as [H _].
Qed.

Lemma trimEnd_fixed (s : string) :
  inkEdge (lastChar s) = true -> trimEnd s = s.
Proof.
  induction s as [|c r IH]; [discriminate|].
  destruct r as [|c' r'].
  - simpl. intros H. apply negb_true_iff in H. now rewrite H.
  - intros H. change (lastChar (String c (String c' r'))) with (lastChar (String c' r')) in H.
    specialize (IH H). simpl in *. rewrite IH. simpl. now rewrite andb_false_r.
Qed.

Lemma trim_fixed (s : string) :
  inkEdge (firstChar s) = true -> inkEdge (lastChar s) = true -> trim s = s.
Proof.
  intros H1 H2. unfold trim. rewrite trimStart_fixed.
  - now apply trimEnd_fixed.
  - destruct s as [|c r]; [reflexivity|]. exact H1.
Qed.

Lemma trimStart_all_blank (pad : string) :
  blank pad = true -> trimStart pad = EmptyString.
Proof.
  induction pad as [|c r IH]; [reflexivity|]. intros H.
  apply blank_whiteSpace_head in H as (H0 & _ & _ & H3).
  simpl. rewrite H0. now apply IH.
Qed.

Lemma trim_app_blank (s pad : string) :
  blank pad = true -> trim (s ++ pad) = trim s.
Proof.
  intros H. unfold trim. induction s as [|c r IH].
  - simpl. now rewrite trimStart_all_blank.
  - simpl. destruct (isWhiteSpace c); [exact IH|].
    change (String c (r ++ pad)%string) with ((String c r) ++ pad)%string.
    now apply trimEnd_blank.
Qed.

Lemma trim_padded (pad1 s pad2 : string) :
  blank pad1 = true -> blank pad2 = true ->
  trim (pad1 ++ s ++ pad2) = trim s.
Proof.
  intros H1 H2. rewrite <- (trim_app_blank s pad2 H2).
  unfold trim. now rewrite trimStart_blank.
Qed.

Lemma lastChar_app (s t : string) :
  t <> EmptyString -> lastChar (s ++ t) = lastChar t.
Proof.
  intros Ht. induction s as [|c r IH]; [reflexivity|].
  simpl. rewrite IH. destruct (r ++ t)%string eqn:E; [|reflexivity].
  destruct r; simpl in E; [congruence | discriminate].
Qed.

Lemma isQuote_not_whiteSpace (c : ascii) : isQuote c = true -> isWhiteSpace c = false.
Proof.
  unfold isQuote. intros H. apply orb_true_iff in H as [H|H];
    apply Ascii.eqb_eq in H; subst; reflexivity.
Qed.

Lemma isQuote_not_lineBreak (c : ascii) :
  isQuote c = true -> Ascii.eqb c LF = false /\ Ascii.eqb c CR = false.
Proof.
  unfold isQuote. intros H. apply orb_true_iff in H as [H|H];
    apply Ascii.eqb_eq in H; subst; split; reflexivity.
Qed.

Lemma dropFinalQuote_fixed (s : string) :
  plainEdge (lastChar s) = true -> dropFinalQuote s = s.
Proof.
  induction s as [|c r IH]; [discriminate|].
  destruct r as [|c' r'].
  - simpl. intros H. apply andb_true_iff in H as [_ H].
    apply negb_true_iff in H. now rewrite H.
  - intros H. change (lastChar (String c (String c' r'))) with (lastChar (String c' r')) in H.
    specialize (IH H). simpl in *. now rewrite IH.
Qed.

Lemma dropFinalQuote_quote (s : string) (q : ascii) :
  isQuote q = true -> dropFinalQuote (s ++ String q EmptyString) = s.
Proof.
  intros Hq. induction s as [|c r IH]; simpl; [now rewrite Hq|].
  rewrite IH. destruct r; reflexivity.
Qed.

Lemma dropFinalQuote_optional (v q : string) :
  optionalQuote q = true -> plainEdge (lastChar v) = true ->
  dropFinalQuote (v ++ q) = v.
Proof.
  intros Hq Hv. destruct q as [|c [|? ?]]; try discriminate.
  - rewrite append_nil_r. now apply dropFinalQuote_fixed.
  - now apply dropFinalQuote_quote.
Qed.

Lemma stripEdgeQuotes_wrapped (q1 v q2 : string) :
  optionalQuote q1 = true -> optionalQuote q2 = true ->
  plainEdge (firstChar v) = true -> plainEdge (lastChar v) = true ->
  stripEdgeQuotes (q1 ++ v ++ q2) = v.
Proof.
  intros H1 H2 Hf Hl. destruct q1 as [|c [|? ?]]; try discriminate.
  - change (EmptyString ++ v ++ q2)%string with (v ++ q2)%string.
    destruct v as [|c r]; [discriminate|].
    pose proof Hf as Hq. simpl in Hq.
    apply andb_true_iff in Hq as [_ Hq]. apply negb_true_iff in Hq.
    change (String c r ++ q2)%string with (String c (r ++ q2)%string).
    unfold stripEdgeQuotes. rewrite Hq.
    now apply (dropFinalQuote_optional (String c r)).
  - change (String c EmptyString ++ v ++ q2)%string with (String c (v ++ q2)%string).
    unfold stripEdgeQuotes. simpl in H1. rewrite H1.
    now apply dropFinalQuote_optional.
Qed.

Lemma trim_wrapped (q1 v q2 : string) :
  optionalQuote q1 = true -> optionalQuote q2 = true ->
  plainEdge (firstChar v) = true -> plainEdge (lastChar v) = true ->
  trim (q1 ++ v ++ q2) = (q1 ++ v ++ q2)%string.
Proof.
  intros H1 H2 Hf Hl.
  assert (Hv : v <> EmptyString) by (destruct v; [discriminate | congruence]).
  apply trim_fixed.
  - destruct q1 as [|c [|? ?]]; try discriminate; simpl.
    + destruct v; [congruence|]. now apply plainEdge_inkEdge.
    + simpl in H1. now rewrite (isQuote_not_whiteSpace c).
  - rewrite lastChar_app.
    + destruct q2 as [|c [|? ?]]; try discriminate.
      * rewrite append_nil_r. now apply plainEdge_inkEdge.
      * rewrite lastChar_app by discriminate. simpl in *.
        now rewrite (isQuote_not_whiteSpace c).
    + destruct v; [congruence | discriminate].
Qed.

(** *** Lines *)

Lemma noLineBreak_head (c : ascii) (r : string) :
  noLineBreak (String c r) = true ->
  Ascii.eqb c LF = false /\ Ascii.eqb c CR = false /\ noLineBreak r = true.
Proof.
  simpl. intros H. repeat (apply andb_true_iff in H; destruct H as [H ?]).
  repeat split; try assumption; now apply negb_true_iff.
Qed.

Lemma splitLines_single (l : string) :
  noLineBreak l = true -> splitLines l = [l].
Proof.
  induction l as [|c r IH]; [reflexivity|]. intros H.
  apply noLineBreak_head in H as (H1 & H2 & H3).
  simpl. rewrite H1, H2, (IH H3). reflexivity.
Qed.

Lemma splitLines_break (l sep rest : string) :
  noLineBreak l = true -> lineBreak sep = true ->
  splitLines (l ++ sep ++ rest) = l :: splitLines rest.
Proof.
  intros Hl Hsep. induction l as [|c r IH].
  - unfold lineBreak in Hsep. apply orb_true_iff in Hsep as [H|H];
      apply String.eqb_eq in H; subst sep; reflexivity.
  - apply noLineBreak_head in Hl as (H1 & H2 & H3).
    simpl. rewrite H1, H2, (IH H3). reflexivity.
Qed.

(** Splitting undoes joining: lines that hold no line break, joined by a
    line feed or by a carriage return and a line feed, are found again. *)
Lemma splitLines_join (sep : string) (lines : list string) :
  lineBreak sep = true -> lines <> [] ->
  Forall (fun l => noLineBreak l = true) lines ->
  splitLines (join sep lines) = lines.
Proof.
  intros Hsep Hne Hall. induction Hall as [|l rest Hl Hrest IH]; [congruence|].
  destruct rest as [|l' rest'].
  - simpl. now apply splitLines_single.
  - change (join sep (l :: l' :: rest')) with (l ++ sep ++ join sep (l' :: rest'))%string.
    rewrite splitLines_break by assumption. f_equal. now apply IH.
Qed.

(** *** Positions *)

Lemma prefix_empty (s : string) : String.prefix EmptyString s = true.
Proof. now destruct s. Qed.

Lemma prefix_app (p s : string) : String.prefix p (p ++ s) = true.
Proof.
  induction p as [|c r IH]; [apply prefix_empty|].
  simpl. destruct (ascii_dec c c); [exact IH | congruence].
Qed.

Lemma indexOf_prefix (needle s : string) : indexOf needle (needle ++ s) = 0%Z.
Proof.
  destruct needle as [|c r]; [now destruct s|].
  change (String c r ++ s)%string with (String c (r ++ s)%string).
  cbn [indexOf]. change (String c (r ++ s)%string) with (String c r ++ s)%string.
  now rewrite prefix_app.
Qed.

Lemma indexOf_char_skip (x : ascii) (a s : string) :
  lacks x a = true -> (0 <= indexOf (String x EmptyString) s)%Z ->
  indexOf (String x EmptyString) (a ++ s)
  = (Z.of_nat (String.length a) + indexOf (String x EmptyString) s)%Z.
Proof.
  intros Ha Hs. induction a as [|c r IH]; [simpl; lia|].
  simpl in Ha. apply andb_true_iff in Ha as [Hc Hr]. apply negb_true_iff in Hc.
  specialize (IH Hr).
  change (String c r ++ s)%string with (String c (r ++ s)%string).
  cbn [indexOf String.prefix String.length].
  destruct (ascii_dec x c) as [E|E].
  - subst c. now rewrite Ascii.eqb_refl in Hc.
  - rewrite IH.
    destruct (Z.ltb_spec (Z.of_nat (String.length r) + indexOf (String x EmptyString) s) 0);
      lia.
Qed.

Lemma blank_lacks_equals (s : string) : blank s = true -> lacks "=" s = true.
Proof.
  induction s as [|c r IH]; [reflexivity|]. intros H.
  apply blank_whiteSpace_head in H as (H0 & _ & _ & H3).
  simpl. rewrite (IH H3), andb_true_r. apply negb_true_iff.
  apply Ascii.eqb_neq. intros ->. discriminate.
Qed.

Lemma dropChars_app (a b : string) : dropChars (String.length a) (a ++ b) = b.
Proof. induction a as [|c r IH]; [now destruct b | exact IH]. Qed.

Lemma slice_app (a b : string) : slice (Z.of_nat (String.length a)) (a ++ b) = b.
Proof.
  unfold slice, sliceStart. rewrite length_append.
  destruct (Z.ltb_spec (Z.of_nat (String.length a)) 0); [lia|].
  rewrite Z.min_l by lia. rewrite Nat2Z.id. apply dropChars_app.
Qed.

End StringShapeFacts.

(** ** Lists *)

Module ListFacts.
Import JsString Stated.

Lemma sliceList_last {A} (n : nat) (l : list A) :
  0 < n -> sliceList (- Z.of_nat n) l = lastN n l.
Proof.
  intros Hn. unfold sliceList, lastN, sliceStart. f_equal.
  destruct (Z.ltb_spec (- Z.of_nat n) 0); lia.
Qed.

Lemma lastN_length {A} (n : nat) (l : list A) :
  length (lastN n l) = Nat.min n (length l).
Proof. unfold lastN. rewrite length_drop. lia. Qed.

Lemma lastN_suffix {A} (n : nat) (l : list A) : lastN n l `suffix_of` l.
Proof. apply suffix_drop. Qed.

Lemma filter_sublist {A} (f : A -> bool) (l : list A) :
  List.filter f l `sublist_of` l.
Proof.
  induction l as [|x l IH]; simpl; [constructor|].
  destruct (f x); [now apply sublist_skip | now apply sublist_cons].
Qed.

Lemma filter_Forall {A} (f : A -> bool) (l : list A) :
  Forall (fun x => f x = true) (List.filter f l).
Proof.
  induction l as [|x l IH]; simpl; [constructor|].
  destruct (f x) eqn:E; [constructor|]; assumption.
Qed.

End ListFacts.

(** ** The proxy route *)

Module RouteFacts.
Import JsString Json Fetch Route Stated Shape JsStringFacts StringShapeFacts ListFacts.

#[local] Arguments String.append !_ _ / : simpl nomatch.

(** *** Sanitisation *)

Lemma isSafeMessage_kept (entry : json) :
  entry <> JNull -> isSafeMessage entry = Ok (keptEntry entry).
Proof.
  intros Hnull. destruct entry as [| | | | |fields]; try reflexivity; [congruence|].
  unfold isSafeMessage, keptEntry, getProp, strictEqStr.
  destruct (lookupField "role" fields) as [[| | |role| |]|]; try reflexivity.
  destruct (String.eqb role "user" || String.eqb role "assistant");
    destruct (lookupField "content" fields) as [[| | |content| |]|];
    try reflexivity.
  destruct (trim content); reflexivity.
Qed.

Lemma filterR_filter (p : json -> result bool) (q : json -> bool) (l : list json) :
  Forall (fun x => p x = Ok (q x)) l -> filterR p l = Ok (List.filter q l).
Proof.
  induction 1 as [|x l Hx _ IH]; simpl; [reflexivity|].
  rewrite Hx, IH. destruct (q x); reflexivity.
Qed.

Lemma safeMessages_array (payload : json) (entries : list json) :
  getProp payload "messages" = Ok (Some (JArr entries)) ->
  Forall (fun entry => entry <> JNull) entries ->
  safeMessages payload = Ok (lastN 12 (List.filter keptEntry entries)).
Proof.
  intros Hp Hall. unfold safeMessages. rewrite Hp.
  rewrite (filterR_filter isSafeMessage keptEntry).
  - f_equal. apply (sliceList_last 12). lia.
  - eapply Forall_impl; [exact Hall|]. intros x Hx. now apply isSafeMessage_kept.
Qed.

(** For a payload whose [messages] field is an array without a null
    entry, the sanitised list is the last twelve of the entries
    the filter keeps: every sanitised entry has role user or assistant and a
    content that is a string not empty once trimmed, the sanitised entries
    appear in the order they had in the input, there are at most twelve, and
    when more than twelve are kept the oldest are the ones left out. *)
Theorem safeMessages_last_twelve_of_kept (payload : json) (entries : list json) :
  getProp payload "messages" = Ok (Some (JArr entries)) ->
  Forall (fun entry => entry <> JNull) entries ->
  let kept := List.filter keptEntry entries in
  exists safe,
    safeMessages payload = Ok safe
    /\ safe = lastN (Z.to_nat MAX_MESSAGES) kept
    /\ Forall (fun entry => keptEntry entry = true) safe
    /\ safe `sublist_of` entries
    /\ length safe = Nat.min 12 (length kept)
    /\ exists older, kept = older ++ safe /\ length older = length kept - 12.
Proof.
  intros Hp Hall kept. exists (lastN 12 kept).
  split; [now apply safeMessages_array|]. split; [reflexivity|].
  assert (Hsuf : lastN 12 kept `suffix_of` kept) by apply lastN_suffix.
  split.
  { destruct Hsuf as [older Hk]. pose proof (filter_Forall keptEntry entries) as HF.
    fold kept in HF. rewrite Hk in HF. now apply Forall_app in HF. }
  split.
  { transitivity kept; [apply sublist_drop | apply filter_sublist]. }
  split; [apply lastN_length|].
  exists (take (length kept - 12) kept). split.
  - unfold lastN. now rewrite take_drop.
  - rewrite length_take. lia.
Qed.

(** The theorem at a list of fourteen entries, thirteen of them kept. *)
Lemma safeMessages_last_twelve_of_kept_witness :
  let entry (s : string) := JObj [("role", JStr "user"); ("content", JStr s)] in
  let entries :=
    [entry "a"; entry " "; entry "b"; entry "c"; entry "d"; entry "e"; entry "f";
     entry "g"; entry "h"; entry "i"; entry "j"; entry "k"; entry "l"; entry "m"] in
  exists safe,
    safeMessages (JObj [("messages", JArr entries)]) = Ok safe
    /\ safe = lastN (Z.to_nat MAX_MESSAGES) (List.filter keptEntry entries)
    /\ Forall (fun entry => keptEntry entry = true) safe
    /\ safe `sublist_of` entries
    /\ length safe = Nat.min 12 (length (List.filter keptEntry entries))
    /\ exists older, List.filter keptEntry entries = older ++ safe
                     /\ length older = length (List.filter keptEntry entries) - 12.
Proof.
  intros entry entries.
  apply (safeMessages_last_twelve_of_kept (JObj [("messages", JArr entries)]) entries).
  - reflexivity.
  - repeat constructor; discriminate.
Defined.

(** C3: the code at the failing input.  The body holds null before a valid
    entry.  Reading [role] of null throws in the callback of the filter, which
    stands between the two [try] blocks of the handler: no sanitised list is
    produced, so not the one made of the valid entry, and with the
    credential resolved the handler throws instead of answering, without
    calling the provider.  The callback of the chunks, for its part, takes
    null for a chunk that contributes nothing. *)
Theorem POST_null_entry_escapes :
  let w :=
    {| env_OPENROUTER_API_KEY := Some "sk-test";
       env_NEXT_PUBLIC_SITE_URL := None;
       parentEnvFile := Throw ThrownOther;
       fileReads := 0;
       providerCalls := [] |} in
  let valid := JObj [("role", JStr "user"); ("content", JStr "hello")] in
  let payload := JObj [("messages", JArr [JNull; valid])] in
  let provider := fun _ : ProviderRequest => FetchRejected ThrownOther in
  List.filter keptEntry [JNull; valid] = [valid]
  /\ safeMessages payload = Throw (nullRead "role")
  /\ safeMessages payload <> Ok [valid]
  /\ fst (POST provider (Some payload) w) = Throw (nullRead "role")
  /\ providerCalls (snd (POST provider (Some payload) w)) = []
  /\ chunkText JNull = Ok EmptyString.
Proof. repeat split. discriminate. Qed.

(** *** Credential resolution *)

Lemma isKeyLine_indented (indent rest : string) :
  blank indent = true ->
  isKeyLine (indent ++ "OPENROUTER_API_KEY=" ++ rest) = true.
Proof.
  intros H. unfold isKeyLine, trim. rewrite trimStart_blank by assumption.
  change (trimStart ("OPENROUTER_API_KEY=" ++ rest))
    with ("OPENROUTER_API_KEY=" ++ rest)%string.
  change (trimEnd ("OPENROUTER_API_KEY=" ++ rest))
    with ("OPENROUTER_API_KEY=" ++ trimEnd rest)%string.
  apply prefix_app.
Qed.

Lemma indexOf_equals_keyLine (rest : string) :
  indexOf "=" ("OPENROUTER_API_KEY=" ++ rest) = 18%Z.
Proof.
  change ("OPENROUTER_API_KEY=" ++ rest)%string
    with ("OPENROUTER_API_KEY" ++ ("=" ++ rest))%string.
  rewrite (indexOf_char_skip "=" "OPENROUTER_API_KEY").
  - now rewrite (indexOf_prefix "=" rest).
  - reflexivity.
  - rewrite (indexOf_prefix "=" rest). lia.
Qed.

Lemma keyLine_after_equals (indent rest : string) :
  blank indent = true ->
  let line := (indent ++ "OPENROUTER_API_KEY=" ++ rest)%string in
  slice (indexOf "=" line + 1) line = rest.
Proof.
  intros H line. subst line.
  rewrite (indexOf_char_skip "=" indent)
    by (now apply blank_lacks_equals || (rewrite indexOf_equals_keyLine; lia)).
  rewrite indexOf_equals_keyLine.
  rewrite <- append_assoc.
  replace (Z.of_nat (String.length indent) + 18 + 1)%Z
    with (Z.of_nat (String.length (indent ++ "OPENROUTER_API_KEY="))).
  - apply slice_app.
  - rewrite length_append. simpl String.length. lia.
Qed.

Lemma find_skip {A} (f : A -> bool) (pre : list A) (rest : list A) :
  Forall (fun x => f x = false) pre ->
  List.find f (pre ++ rest) = List.find f rest.
Proof.
  induction 1 as [|x pre Hx _ IH]; [reflexivity|]. simpl. now rewrite Hx.
Qed.

Lemma find_head {A} (f : A -> bool) (x : A) (rest : list A) :
  f x = true -> List.find f (x :: rest) = Some x.
Proof. intros H. simpl. now rewrite H. Qed.

Lemma keyFromEnvFile_lines (sep : string) (lines : list string) :
  lineBreak sep = true -> lines <> [] ->
  Forall (fun l => noLineBreak l = true) lines ->
  keyFromEnvFile (join sep lines)
  = match List.find isKeyLine lines with
    | None => None
    | Some keyLine =>
        let value :=
          stripEdgeQuotes (trim (slice (indexOf "=" keyLine + 1) keyLine)) in
        if isEmpty value then None else Some value
    end.
Proof.
  intros Hsep Hne Hall. unfold keyFromEnvFile.
  rewrite splitLines_join by assumption.
  destruct (List.find isKeyLine lines) as [keyLine|] eqn:E; [|reflexivity].
  apply List.find_some in E as [_ E].
  destruct keyLine; [discriminate | reflexivity].
Qed.

(** The value a key line yields: what follows the first equals sign,
    trimmed, without a quote at either end. *)
Lemma keyFromEnvFile_keyLine (sep : string) (pre post : list string)
    (indent rest : string) :
  lineBreak sep = true ->
  Forall (fun l => noLineBreak l = true) pre ->
  Forall (fun l => noLineBreak l = true) post ->
  Forall (fun l => isKeyLine l = false) pre ->
  blank indent = true -> noLineBreak rest = true ->
  keyFromEnvFile
    (join sep (pre ++ (indent ++ "OPENROUTER_API_KEY=" ++ rest)%string :: post))
  = let value := stripEdgeQuotes (trim rest) in
    if isEmpty value then None else Some value.
Proof.
  intros Hsep Hpre Hpost Hnokey Hindent Hrest.
  rewrite keyFromEnvFile_lines.
  - rewrite find_skip by assumption.
    rewrite find_head by now apply isKeyLine_indented.
    now rewrite keyLine_after_equals.
  - assumption.
  - now destruct pre.
  - apply Forall_app. split; [assumption|]. constructor; [|assumption].
    rewrite !noLineBreak_app, Hrest, (blank_noLineBreak indent) by assumption.
    reflexivity.
Qed.

(** *** Reply normalisation *)

Lemma chunkText_contribution (chunk : json) :
  chunkText chunk
  = match contribution chunk with
    | Throw t => Throw t
    | Ok c => Ok (default EmptyString c)
    end.
Proof.
  destruct chunk as [| | |s| |fields]; try reflexivity.
  unfold chunkText, contribution, hasField, strictEqStr.
  destruct (lookupField "type" fields) as [[| | |tag| |]|];
    destruct (lookupField "text" fields) as [text|]; simpl;
    try reflexivity; try (now destruct text).
  destruct (String.eqb tag "text"); [|reflexivity].
  destruct text; try reflexivity; now destruct (toStr _).
Qed.

Lemma mapR_contributions (items : list json) :
  match mapR chunkText items with
  | Throw t => Throw t
  | Ok texts => Ok (List.filter (fun s => negb (isEmpty s)) texts)
  end
  = contributions items.
Proof.
  induction items as [|x items IH]; [reflexivity|].
  cbn [mapR contributions]. rewrite chunkText_contribution, <- IH.
  destruct (contribution x) as [[s|]|t]; [| |reflexivity];
    destruct (mapR chunkText items) as [texts|t']; try reflexivity.
  simpl. now destruct s.
Qed.

(** C4 (as amended).  A string normalises to itself trimmed.  A sequence of
    chunks normalises to its non-empty contributions joined by line feeds,
    then trimmed, where a chunk that is a string contributes itself, a chunk
    object with a type field equal to text and a text field contributes that
    field rendered as a string (nothing when it is null), and any other chunk
    contributes nothing; when rendering a text field throws, as it does for
    an object with a key toString of its own, normalisation throws what the
    first such chunk throws.  Any other content normalises to the empty
    string.  In particular hello gives hello, and a text chunk a, an image
    chunk and a text chunk b give a, a line feed and b. *)
Theorem extractAssistantText_normalized :
  (forall content : value, extractAssistantText content = normalized content)
  /\ extractAssistantText (Some (JStr "hello")) = Ok "hello"
  /\ extractAssistantText
       (Some (JArr [JObj [("type", JStr "text"); ("text", JStr "a")];
                    JObj [("type", JStr "image"); ("url", JStr "u")];
                    JObj [("type", JStr "text"); ("text", JStr "b")]]))
     = Ok (String "a" (String LF "b"))
  /\ extractAssistantText
       (Some (JArr [JObj [("type", JStr "text");
                          ("text", JObj [("toString", JNum "1")])]]))
     = Throw notPrimitive.
Proof.
  split; [|repeat split; reflexivity].
  intros [[| | |s|items|]|]; try reflexivity.
  unfold extractAssistantText, normalized. rewrite <- mapR_contributions.
  now destruct (mapR chunkText items).
Qed.

(** C4: the chunks that contribute are not exactly those tagged text with
    their text field.  A text chunk whose text is empty leaves no blank line,
    and a chunk that is a bare string contributes although it has no tag. *)
Lemma extractAssistantText_not_joinTaggedTexts :
  let text (s : string) := JObj [("type", JStr "text"); ("text", JStr s)] in
  extractAssistantText (Some (JArr [text "a"; text EmptyString; text "b"]))
    <> Ok (joinTaggedTexts [text "a"; text EmptyString; text "b"])
  /\ extractAssistantText (Some (JArr [JStr "a"])) <> Ok (joinTaggedTexts [JStr "a"]).
Proof. split; vm_compute; discriminate. Qed.

(** *** Running the handler *)

Lemma getApiKey_from_env (w : World) (key : string) :
  envApiKey (env_OPENROUTER_API_KEY w) = Some key ->
  getApiKey w = (Some key, w).
Proof.
  intros H. unfold getApiKey, getenv_OPENROUTER_API_KEY, mbind, M_bind.
  now rewrite H.
Qed.

Lemma getApiKey_from_file (w : World) :
  envApiKey (env_OPENROUTER_API_KEY w) = None ->
  getApiKey w = (keyFromRead (parentEnvFile w), noteFileRead w).
Proof.
  intros H. unfold getApiKey, getenv_OPENROUTER_API_KEY, mbind, M_bind.
  now rewrite H.
Qed.

Lemma envApiKey_nonempty (env : option string) (key : string) :
  envApiKey env = Some key -> key <> EmptyString.
Proof.
  destruct env as [v|]; [|discriminate]. simpl.
  destruct (trim v) eqn:E; simpl; intros H; inversion H; subst; discriminate.
Qed.

Lemma keyFromEnvFile_nonempty (raw key : string) :
  keyFromEnvFile raw = Some key -> key <> EmptyString.
Proof.
  unfold keyFromEnvFile. destruct (List.find isKeyLine (splitLines raw)) as [l|];
    [|discriminate].
  destruct (isEmpty l); [discriminate|].
  destruct (stripEdgeQuotes _) eqn:E; simpl; intros H; inversion H; subst; discriminate.
Qed.

Lemma getApiKey_nonempty (w w' : World) (key : string) :
  getApiKey w = (Some key, w') -> key <> EmptyString.
Proof.
  destruct (envApiKey (env_OPENROUTER_API_KEY w)) as [k|] eqn:E.
  - rewrite (getApiKey_from_env w k E). intros H. inversion H; subst.
    now apply envApiKey_nonempty in E.
  - rewrite (getApiKey_from_file w E). intros H. inversion H as [[Hk Hw]].
    destruct (parentEnvFile w) as [raw|]; [|discriminate].
    now apply keyFromEnvFile_nonempty in Hk.
Qed.

Lemma POST_missing_key (provider : ProviderRequest -> FetchOutcome)
    (requestJson : option json) (w w' : World) :
  getApiKey w = (None, w') ->
  POST provider requestJson w = (Ok missingKeyResponse, w').
Proof. intros H. unfold POST, mbind, M_bind. now rewrite H. Qed.

Lemma POST_with_key (provider : ProviderRequest -> FetchOutcome)
    (requestJson : option json) (w w' : World) (key : string) :
  getApiKey w = (Some key, w') ->
  POST provider requestJson w
  = match requestJson with
    | None => (Ok invalidBodyResponse, w')
    | Some payload =>
        match safeMessages payload with
        | Throw t => (Throw t, w')
        | Ok [] => (Ok noValidMessageResponse, w')
        | Ok safe =>
            let req :=
              providerRequest key (refererOf (env_NEXT_PUBLIC_SITE_URL w')) safe in
            (Ok (respondTo (provider req)), noteProviderCall req w')
        end
    end.
Proof.
  intros H. pose proof (getApiKey_nonempty w w' key H) as Hk.
  unfold POST, mbind, M_bind. rewrite H.
  destruct key; [congruence|]. simpl isEmpty. cbv iota.
  destruct requestJson as [payload|]; [|reflexivity].
  destruct (safeMessages payload) as [[|m safe]|t]; reflexivity.
Qed.

Lemma getApiKey_calls (w : World) :
  providerCalls (snd (getApiKey w)) = providerCalls w.
Proof.
  destruct (envApiKey (env_OPENROUTER_API_KEY w)) as [k|] eqn:E.
  - now rewrite (getApiKey_from_env w k E).
  - now rewrite (getApiKey_from_file w E).
Qed.

(** C1: the code at the failing input.  With the variable unset and a
    readable file that holds the key, two resolutions in a row give the same
    value, and the file has then been read twice. *)
Theorem getApiKey_reads_file_each_time :
  let w0 :=
    {| env_OPENROUTER_API_KEY := None;
       env_NEXT_PUBLIC_SITE_URL := None;
       parentEnvFile := Ok ("OPENROUTER_API_KEY=sk-or-v1-abc" ++ String LF EmptyString)%string;
       fileReads := 0;
       providerCalls := [] |} in
  let first := getApiKey w0 in
  let second := getApiKey (snd first) in
  fst first = Some "sk-or-v1-abc"
  /\ fst second = fst first
  /\ fileReads (snd first) = 1
  /\ fileReads (snd second) = 2.
Proof. vm_compute. repeat split. Qed.

(** C5.  When the credential resolves, the request holds a valid message and
    the provider answers with a success status and JSON data other than
    null, the handler answers with the 502 empty-reply payload if
    normalisation returns the empty reply and with the success payload
    carrying the reply and the model if it returns a reply that is not empty;
    so a success payload comes back if and only if the normalised reply is not
    empty.  (When normalisation throws there is no reply, and the payload is
    the 502 one for a provider out of reach.) *)
Theorem POST_success_iff_reply_not_empty
    (provider : ProviderRequest -> FetchOutcome) (payload : json)
    (w w' : World) (key : string) (safe : list json) (data : json)
    (content : value) :
  getApiKey w = (Some key, w') ->
  safeMessages payload = Ok safe ->
  safe <> [] ->
  provider (providerRequest key (refererOf (env_NEXT_PUBLIC_SITE_URL w')) safe)
  = FetchResponded true (BodyJson data) ->
  firstChoiceContent data = Ok content ->
  let response := fst (POST provider (Some payload) w) in
  (extractAssistantText content = Ok EmptyString -> response = Ok emptyReplyResponse)
  /\ (forall reply, extractAssistantText content = Ok reply ->
                    reply <> EmptyString -> response = Ok (successResponse reply))
  /\ (forall r, response = Ok (successResponse r) <->
                extractAssistantText content = Ok r /\ r <> EmptyString)
  /\ (forall t, extractAssistantText content = Throw t ->
                response = Ok unreachableResponse)
  /\ status emptyReplyResponse = 502%Z
  /\ (forall reply, body (successResponse reply)
                    = JObj [("reply", JStr reply); ("model", JStr OPENROUTER_MODEL)]).
Proof.
  intros Hkey Hsafe Hne Hprov Hcontent response.
  assert (Hresp : response
                  = Ok (match extractAssistantText content with
                        | Throw _ => unreachableResponse
                        | Ok reply =>
                            if isEmpty reply then emptyReplyResponse
                            else successResponse reply
                        end)).
  { subst response. rewrite (POST_with_key provider (Some payload) w w' key Hkey).
    rewrite Hsafe. destruct safe as [|m safe']; [congruence|].
    cbv zeta. rewrite Hprov. cbn [fst respondTo negb]. now rewrite Hcontent. }
  rewrite Hresp.
  split; [|split; [|split; [|split; [|split; [reflexivity | reflexivity]]]]].
  - intros ->. reflexivity.
  - intros reply -> H. destruct reply; [congruence | reflexivity].
  - intros r. destruct (extractAssistantText content) as [reply|t]; split.
    + intros H. destruct reply; [discriminate|]. simpl in H.
      inversion H. split; [reflexivity | discriminate].
    + intros [H Hr]. inversion H; subst. destruct r; [congruence | reflexivity].
    + discriminate.
    + intros [H _]. discriminate.
  - intros t ->. reflexivity.
Qed.

(** The theorem at a request with one user message, answered by a model
    reply of white space only: the empty-reply payload comes back. *)
Lemma POST_success_iff_reply_not_empty_witness :
  let w :=
    {| env_OPENROUTER_API_KEY := Some "sk-test";
       env_NEXT_PUBLIC_SITE_URL := None;
       parentEnvFile := Throw ThrownOther;
       fileReads := 0;
       providerCalls := [] |} in
  let payload :=
    JObj [("messages", JArr [JObj [("role", JStr "user"); ("content", JStr "hi")]])] in
  let data :=
    JObj [("choices", JArr [JObj [("message", JObj [("content", JStr "  ")])]])] in
  let provider := fun _ : ProviderRequest => FetchResponded true (BodyJson data) in
  fst (POST provider (Some payload) w) = Ok emptyReplyResponse.
Proof.
  intros w payload data provider.
  refine (proj1 (POST_success_iff_reply_not_empty provider payload w w "sk-test"
                   [JObj [("role", JStr "user"); ("content", JStr "hi")]] data
                   (Some (JStr "  ")) _ _ _ _ _) _);
    (reflexivity || discriminate).
Defined.

(** C10.  When the credential does not resolve, the handler answers with the
    500 payload whatever the request body is, unreadable and without a valid
    message included, and the provider is not called. *)
Theorem POST_missing_key_whatever_body
    (provider : ProviderRequest -> FetchOutcome) (requestJson : option json)
    (w : World) :
  fst (getApiKey w) = None ->
  fst (POST provider requestJson w) = Ok missingKeyResponse
  /\ status missingKeyResponse = 500%Z
  /\ fst (POST provider requestJson w) <> Ok invalidBodyResponse
  /\ fst (POST provider requestJson w) <> Ok noValidMessageResponse
  /\ providerCalls (snd (POST provider requestJson w)) = providerCalls w.
Proof.
  intros H. destruct (getApiKey w) as [k w'] eqn:E. simpl in H. subst k.
  rewrite (POST_missing_key provider requestJson w w' E). simpl fst. simpl snd.
  repeat split; try discriminate.
  pose proof (getApiKey_calls w) as Hc. now rewrite E in Hc.
Qed.

(** The theorem at an unreadable body, with the variable unset and no
    file. *)
Lemma POST_missing_key_whatever_body_witness :
  let w :=
    {| env_OPENROUTER_API_KEY := None;
       env_NEXT_PUBLIC_SITE_URL := None;
       parentEnvFile := Throw (ThrownError "ENOENT");
       fileReads := 0;
       providerCalls := [] |} in
  let provider := fun _ : ProviderRequest => FetchRejected ThrownOther in
  fst (POST provider None w) = Ok missingKeyResponse
  /\ status missingKeyResponse = 500%Z
  /\ fst (POST provider None w) <> Ok invalidBodyResponse
  /\ fst (POST provider None w) <> Ok noValidMessageResponse
  /\ providerCalls (snd (POST provider None w)) = providerCalls w.
Proof.
  intros w provider. apply (POST_missing_key_whatever_body provider None w).
  reflexivity.
Defined.

Lemma plainValue_parts (v : string) :
  plainValue v = true ->
  noLineBreak v = true /\ plainEdge (firstChar v) = true
  /\ plainEdge (lastChar v) = true.
Proof.
  unfold plainValue. intros H.
  apply andb_true_iff in H as [H H3]. apply andb_true_iff in H as [H1 H2].
  now repeat split.
Qed.

Lemma optionalQuote_noLineBreak (q : string) :
  optionalQuote q = true -> noLineBreak q = true.
Proof.
  destruct q as [|c [|? ?]]; try discriminate; [reflexivity|].
  simpl. intros H. destruct (isQuote_not_lineBreak c H) as [-> ->]. reflexivity.
Qed.

Lemma keyFromEnvFile_value (sep : string) (pre post : list string)
    (indent pad1 q1 v q2 pad2 : string) :
  lineBreak sep = true ->
  Forall (fun l => noLineBreak l = true) pre ->
  Forall (fun l => noLineBreak l = true) post ->
  Forall (fun l => isKeyLine l = false) pre ->
  blank indent = true -> blank pad1 = true -> blank pad2 = true ->
  optionalQuote q1 = true -> optionalQuote q2 = true ->
  plainValue v = true ->
  keyFromEnvFile
    (join sep
       (pre ++ (indent ++ "OPENROUTER_API_KEY=" ++ pad1 ++ q1 ++ v ++ q2 ++ pad2)%string
            :: post))
  = Some v.
Proof.
  intros Hsep Hpre Hpost Hnokey Hindent Hpad1 Hpad2 Hq1 Hq2 Hv.
  apply plainValue_parts in Hv as (Hv1 & Hv2 & Hv3).
  rewrite keyFromEnvFile_keyLine; try assumption.
  - replace (pad1 ++ q1 ++ v ++ q2 ++ pad2)%string
      with (pad1 ++ (q1 ++ v ++ q2) ++ pad2)%string
      by now rewrite !append_assoc.
    rewrite trim_padded by assumption.
    rewrite trim_wrapped by assumption.
    rewrite stripEdgeQuotes_wrapped by assumption.
    cbv zeta. destruct v; [discriminate | reflexivity].
  - rewrite !noLineBreak_app, Hv1.
    rewrite (blank_noLineBreak pad1), (blank_noLineBreak pad2) by assumption.
    now rewrite (optionalQuote_noLineBreak q1), (optionalQuote_noLineBreak q2).
Qed.

Lemma keyFromEnvFile_no_keyLine (sep : string) (lines : list string) :
  lineBreak sep = true -> lines <> [] ->
  Forall (fun l => noLineBreak l = true) lines ->
  Forall (fun l => isKeyLine l = false) lines ->
  keyFromEnvFile (join sep lines) = None.
Proof.
  intros Hsep Hne Hall Hnokey. rewrite keyFromEnvFile_lines by assumption.
  rewrite <- (app_nil_r lines), find_skip by assumption. reflexivity.
Qed.

(** C6.  Resolution takes the environment value first: when the variable
    holds a value that is not blank, the result is that value trimmed and the
    file is not read.  When the variable is unset or blank, the result is what
    one read of the file yields: for a file of lines in which the first key
    line is OPENROUTER_API_KEY= followed by the value, optionally between
    quotes and blanks, that value without the quotes; nothing when the file
    cannot be read or holds no key line.  When resolution yields nothing the
    handler answers with the 500 payload and does not call the provider. *)
Theorem getApiKey_env_then_parent_file :
  (forall (w : World) (v : string),
      env_OPENROUTER_API_KEY w = Some v -> trim v <> EmptyString ->
      getApiKey w = (Some (trim v), w))
  /\ (forall w : World,
         env_OPENROUTER_API_KEY w = None
         \/ (exists v, env_OPENROUTER_API_KEY w = Some v /\ trim v = EmptyString) ->
         getApiKey w = (keyFromRead (parentEnvFile w), noteFileRead w)
         /\ fileReads (noteFileRead w) = S (fileReads w))
  /\ (forall (sep : string) (pre post : list string)
             (indent pad1 q1 v q2 pad2 : string),
         lineBreak sep = true ->
         Forall (fun l => noLineBreak l = true) pre ->
         Forall (fun l => noLineBreak l = true) post ->
         Forall (fun l => isKeyLine l = false) pre ->
         blank indent = true -> blank pad1 = true -> blank pad2 = true ->
         optionalQuote q1 = true -> optionalQuote q2 = true ->
         plainValue v = true ->
         keyFromRead
           (Ok (join sep
                  (pre ++ (indent ++ "OPENROUTER_API_KEY=" ++ pad1 ++ q1 ++ v
                             ++ q2 ++ pad2)%string
                       :: post)))
         = Some v)
  /\ (forall t : thrown, keyFromRead (Throw t) = None)
  /\ (forall (sep : string) (lines : list string),
         lineBreak sep = true -> lines <> [] ->
         Forall (fun l => noLineBreak l = true) lines ->
         Forall (fun l => isKeyLine l = false) lines ->
         keyFromRead (Ok (join sep lines)) = None)
  /\ (forall (provider : ProviderRequest -> FetchOutcome)
             (requestJson : option json) (w : World),
         fst (getApiKey w) = None ->
         fst (POST provider requestJson w) = Ok missingKeyResponse
         /\ status missingKeyResponse = 500%Z
         /\ providerCalls (snd (POST provider requestJson w)) = providerCalls w).
Proof.
  split; [|split; [|split; [|split; [|split]]]].
  - intros w v He Hv. apply getApiKey_from_env. rewrite He. simpl.
    destruct (trim v); [congruence | reflexivity].
  - intros w H. split; [|reflexivity]. apply getApiKey_from_file.
    destruct H as [-> | (v & -> & Hv)]; [reflexivity|]. simpl. now rewrite Hv.
  - intros. now apply keyFromEnvFile_value.
  - reflexivity.
  - intros. now apply keyFromEnvFile_no_keyLine.
  - intros provider requestJson w H.
    destruct (getApiKey w) as [k w'] eqn:E. simpl in H. subst k.
    rewrite (POST_missing_key provider requestJson w w' E).
    repeat split. pose proof (getApiKey_calls w) as Hc. now rewrite E in Hc.
Qed.

(** The theorem at a process with the variable unset and a two-line file
    whose second line holds the key between apostrophes. *)
Lemma getApiKey_env_then_parent_file_witness :
  let raw :=
    ("# provider" ++ String LF "  OPENROUTER_API_KEY= 'sk-or-v1-abc' ")%string in
  let w :=
    {| env_OPENROUTER_API_KEY := None;
       env_NEXT_PUBLIC_SITE_URL := None;
       parentEnvFile := Ok raw;
       fileReads := 0;
       providerCalls := [] |} in
  keyFromRead (Ok raw) = Some "sk-or-v1-abc"
  /\ getApiKey w = (keyFromRead (parentEnvFile w), noteFileRead w).
Proof.
  intros raw w.
  destruct getApiKey_env_then_parent_file as (_ & Hfile & Hvalue & _).
  split.
  - apply (Hvalue (String LF EmptyString) ["# provider"] [] "  " " "
             (String APOSTROPHE EmptyString) "sk-or-v1-abc"
             (String APOSTROPHE EmptyString) " ");
      try reflexivity; repeat constructor.
  - apply (Hfile w). left. reflexivity.
Defined.

(** *** Further properties of credential resolution *)

Lemma trim_blank (s : string) : blank s = true -> trim s = EmptyString.
Proof. intros H. unfold trim. now rewrite trimStart_all_blank. Qed.

Lemma keyFromEnvFile_single_line (indent rest : string) :
  blank indent = true -> noLineBreak rest = true ->
  keyFromEnvFile (indent ++ "OPENROUTER_API_KEY=" ++ rest)
  = let value := stripEdgeQuotes (trim rest) in
    if isEmpty value then None else Some value.
Proof.
  intros Hi Hr.
  apply (keyFromEnvFile_keyLine (String LF EmptyString) [] [] indent rest);
    solve [assumption | reflexivity | constructor].
Qed.

(** The first line that is a key line decides: the result is what that line
    alone would give, whatever the lines after it hold; when nothing but
    blanks follows its equals sign the result is no key, even if a later
    line carries one. *)
Theorem keyFromEnvFile_first_key_line_decides (sep : string)
    (pre post : list string) (indent rest : string) :
  lineBreak sep = true ->
  Forall (fun l => noLineBreak l = true) pre ->
  Forall (fun l => noLineBreak l = true) post ->
  Forall (fun l => isKeyLine l = false) pre ->
  blank indent = true -> noLineBreak rest = true ->
  let line := (indent ++ "OPENROUTER_API_KEY=" ++ rest)%string in
  keyFromEnvFile (join sep (pre ++ line :: post)) = keyFromEnvFile line
  /\ (blank rest = true -> keyFromEnvFile (join sep (pre ++ line :: post)) = None).
Proof.
  intros Hsep Hpre Hpost Hnokey Hindent Hrest line. subst line.
  rewrite keyFromEnvFile_keyLine by assumption.
  rewrite keyFromEnvFile_single_line by assumption.
  split; [reflexivity|]. intros Hb. now rewrite trim_blank.
Qed.

(** The theorem at a file whose first key line is empty and whose second
    holds a key. *)
Lemma keyFromEnvFile_first_key_line_decides_witness :
  keyFromEnvFile
    ("OPENROUTER_API_KEY=" ++ String LF "OPENROUTER_API_KEY=sk-or-v1-abc")
  = None.
Proof.
  refine (proj2 (keyFromEnvFile_first_key_line_decides (String LF EmptyString)
                   [] ["OPENROUTER_API_KEY=sk-or-v1-abc"] EmptyString EmptyString
                   _ _ _ _ _ _) _);
    try reflexivity; repeat constructor.
Defined.

(** A file with carriage returns before its line feeds yields the key that
    the same lines joined by line feeds alone yield. *)
Theorem keyFromEnvFile_crlf_as_lf (lines : list string) :
  lines <> [] ->
  Forall (fun l => noLineBreak l = true) lines ->
  keyFromEnvFile (join (String CR (String LF EmptyString)) lines)
  = keyFromEnvFile (join (String LF EmptyString) lines).
Proof.
  intros Hne Hall. now rewrite !keyFromEnvFile_lines.
Qed.

(** The theorem at a two-line file. *)
Lemma keyFromEnvFile_crlf_as_lf_witness :
  keyFromEnvFile
    ("NODE_ENV=production" ++ String CR (String LF "OPENROUTER_API_KEY=sk-1"))
  = keyFromEnvFile ("NODE_ENV=production" ++ String LF "OPENROUTER_API_KEY=sk-1").
Proof.
  apply (keyFromEnvFile_crlf_as_lf ["NODE_ENV=production"; "OPENROUTER_API_KEY=sk-1"]).
  - discriminate.
  - repeat constructor.
Defined.

(** *** Further properties of normalisation and sanitisation *)

Lemma trimEnd_last (s : string) :
  trimEnd s <> EmptyString -> inkEdge (lastChar (trimEnd s)) = true.
Proof.
  induction s as [|c r IH]; [intros H; now elim H|]. simpl.
  destruct (trimEnd r) as [|c' r'] eqn:E.
  - destruct (isWhiteSpace c) eqn:Ec; simpl; [intros H; now elim H|].
    intros _. now rewrite Ec.
  - rewrite andb_false_r. intros _. apply IH. discriminate.
Qed.

Lemma trim_edges (s : string) :
  trim s <> EmptyString ->
  inkEdge (firstChar (trim s)) = true /\ inkEdge (lastChar (trim s)) = true.
Proof.
  intros H. split; [|now apply trimEnd_last].
  pose proof (trim_ledClean s) as Hl. destruct (trim s); [congruence | exact Hl].
Qed.

Lemma extractAssistantText_idem (content : value) (reply : string) :
  extractAssistantText content = Ok reply -> trim reply = reply.
Proof.
  destruct content as [[| | |s|items|]|]; simpl; intros H;
    try (inversion H; reflexivity).
  - inversion H. apply trim_idem.
  - destruct (mapR chunkText items); inversion H. apply trim_idem.
Qed.

(** A normalised reply has no white space at either end, and normalising it
    again changes nothing. *)
Theorem extractAssistantText_trimmed (content : value) (reply : string) :
  extractAssistantText content = Ok reply ->
  (reply <> EmptyString ->
   inkEdge (firstChar reply) = true /\ inkEdge (lastChar reply) = true)
  /\ trim reply = reply
  /\ extractAssistantText (Some (JStr reply)) = Ok reply.
Proof.
  intros H. apply extractAssistantText_idem in H.
  split; [|split; [exact H | simpl; now rewrite H]].
  rewrite <- H. apply trim_edges.
Qed.

(** The theorem at two text chunks with white space around their texts. *)
Lemma extractAssistantText_trimmed_witness :
  let reply := String "a" (String " " (String LF "b")) in
  (reply <> EmptyString ->
   inkEdge (firstChar reply) = true /\ inkEdge (lastChar reply) = true)
  /\ trim reply = reply
  /\ extractAssistantText (Some (JStr reply)) = Ok reply.
Proof.
  intros reply.
  apply (extractAssistantText_trimmed
           (Some (JArr [JObj [("type", JStr "text"); ("text", JStr " a ")];
                        JObj [("type", JStr "text"); ("text", JStr "b  ")]]))).
  reflexivity.
Defined.

Lemma json_eq_null (j : json) : j = JNull \/ j <> JNull.
Proof. destruct j; [now left | right; discriminate..]. Qed.

Lemma filterR_throws (entries : list json) (t : thrown) :
  filterR isSafeMessage entries = Throw t <->
  In JNull entries /\ t = nullRead "role".
Proof.
  induction entries as [|x entries IH].
  - simpl. split; [discriminate | now intros [[] _]].
  - destruct (json_eq_null x) as [->|Hx].
    + simpl. split; [|now intros [_ ->]].
      intros H. inversion H. split; [now left | reflexivity].
    + cbn [filterR]. rewrite (isSafeMessage_kept x Hx).
      transitivity (filterR isSafeMessage entries = Throw t).
      * destruct (filterR isSafeMessage entries); split; congruence.
      * rewrite IH. simpl. split; [intros [H Ht]; split; [now right | exact Ht]|].
        intros [[H|H] Ht]; [now subst x | now split].
Qed.

(** Sanitisation throws exactly for a body that is null, and for a body
    whose messages array holds a null entry; each entry of another kind,
    whatever its shape, is kept or dropped without an error. *)
Theorem safeMessages_throws_only_on_null (payload : json) (t : thrown) :
  safeMessages payload = Throw t <->
  (payload = JNull /\ t = nullRead "messages")
  \/ (exists entries,
        getProp payload "messages" = Ok (Some (JArr entries))
        /\ In JNull entries /\ t = nullRead "role").
Proof.
  unfold safeMessages. destruct payload as [| | | | |fields].
  1: { simpl. split; [intros H; inversion H; now left|].
       intros [[_ ->]|(entries & H & _)]; [reflexivity | discriminate]. }
  all: cbn [getProp].
  1-4: split; [discriminate | intros [[H _]|(entries & H & _)]; discriminate].
  destruct (lookupField "messages" fields) as [[| | | |entries|]|] eqn:E;
    try (split; [discriminate | intros [[H _]|(entries' & H & _)]; discriminate]).
  destruct (filterR isSafeMessage entries) as [kept|t'] eqn:Ef.
  - split; [discriminate|]. intros [[H _]|(entries' & H & Hin & Ht)]; [discriminate|].
    inversion H; subst entries'.
    pose proof (proj2 (filterR_throws entries t) (conj Hin Ht)) as H'. congruence.
  - split.
    + intros H. inversion H; subst t'. right. exists entries.
      split; [reflexivity|]. now apply filterR_throws.
    + intros [[H _]|(entries' & H & Hin & Ht)]; [discriminate|].
      inversion H; subst entries'.
      pose proof (proj2 (filterR_throws entries t) (conj Hin Ht)) as H'. congruence.
Qed.
(** *** Further properties of the handler *)

Lemma filterR_ok (entries kept : list json) :
  filterR isSafeMessage entries = Ok kept ->
  kept = List.filter keptEntry entries.
Proof.
  intros H.
  assert (Hall : Forall (fun entry => entry <> JNull) entries).
  { apply Forall_forall. intros x Hx ->. apply list_elem_of_In in Hx.
    pose proof (proj2 (filterR_throws entries (nullRead "role")) (conj Hx eq_refl)).
    congruence. }
  rewrite (filterR_filter isSafeMessage keptEntry) in H.
  - now inversion H.
  - eapply Forall_impl; [exact Hall|]. intros x Hx. now apply isSafeMessage_kept.
Qed.

Lemma safeMessages_ok (payload : json) (safe : list json) :
  safeMessages payload = Ok safe ->
  Forall (fun entry => keptEntry entry = true) safe /\ length safe <= 12.
Proof.
  unfold safeMessages.
  destruct (getProp payload "messages") as [[[| | | |entries|]|]|];
    try (intros H; discriminate H);
    try (intros H; inversion H; split; [constructor | simpl; lia]).
  destruct (filterR isSafeMessage entries) as [kept|] eqn:E; [|discriminate].
  apply filterR_ok in E. subst kept. intros H. inversion H as [H'].
  rewrite (sliceList_last 12) by lia. split.
  - pose proof (filter_Forall keptEntry entries) as HF.
    rewrite <- (take_drop (length (List.filter keptEntry entries) - 12)) in HF.
    now apply Forall_app in HF.
  - rewrite lastN_length. lia.
Qed.

Lemma keptEntry_not_null (entry : json) : keptEntry entry = true -> entry <> JNull.
Proof. now destruct entry. Qed.

Lemma filter_all {A} (f : A -> bool) (l : list A) :
  Forall (fun x => f x = true) l -> List.filter f l = l.
Proof.
  induction 1 as [|x l Hx _ IH]; [reflexivity|]. simpl. now rewrite Hx, IH.
Qed.

(** Sanitising what sanitisation returned changes nothing. *)
Theorem safeMessages_idempotent (payload : json) (safe : list json) :
  safeMessages payload = Ok safe ->
  safeMessages (JObj [("messages", JArr safe)]) = Ok safe.
Proof.
  intros H. apply safeMessages_ok in H as [Hkept Hlen].
  rewrite (safeMessages_array _ safe) by
    (reflexivity || (eapply Forall_impl; [exact Hkept|]; apply keptEntry_not_null)).
  rewrite filter_all by assumption. unfold lastN.
  replace (length safe - 12) with 0 by lia. reflexivity.
Qed.

(** The theorem at a body with one valid entry, a system entry and a blank
    one. *)
Lemma safeMessages_idempotent_witness :
  let valid := JObj [("role", JStr "user"); ("content", JStr "hello")] in
  safeMessages (JObj [("messages", JArr [valid])]) = Ok [valid].
Proof.
  intros valid.
  apply (safeMessages_idempotent
           (JObj [("messages",
                   JArr [JObj [("role", JStr "system"); ("content", JStr "x")];
                         valid;
                         JObj [("role", JStr "user"); ("content", JStr " ")]])])
           [valid]).
  reflexivity.
Defined.

Lemma providerErrorMessage_truthy (data : json) (message : json) :
  providerErrorMessage data = Ok message -> truthy (Some message) = true.
Proof.
  unfold providerErrorMessage. destruct (getProp data "error") as [error|]; [|discriminate].
  destruct (optProp error "message") as [m|] eqn:E.
  - destruct (truthy (Some m)) eqn:Em; intros H; inversion H; subst; [exact Em | reflexivity].
  - intros H. inversion H. reflexivity.
Qed.

Lemma respondTo_classes (outcome : FetchOutcome) :
  (exists reply, respondTo outcome = successResponse reply
                 /\ reply <> EmptyString /\ trim reply = reply)
  \/ (exists message, respondTo outcome = errorResponse 502 message
                      /\ truthy (Some message) = true).
Proof.
  destruct outcome as [reason|ok [data|syntaxError]]; simpl;
    try (right; eexists; split; reflexivity).
  destruct ok; simpl.
  - destruct (firstChoiceContent data) as [content|];
      [|right; eexists; split; reflexivity].
    destruct (extractAssistantText content) as [reply|t] eqn:E;
      [|right; eexists; split; reflexivity].
    destruct reply as [|c r] eqn:Er; simpl;
      [right; eexists; split; reflexivity|].
    left. eexists. split; [reflexivity|]. split; [discriminate|].
    now apply extractAssistantText_idem in E.
  - destruct (providerErrorMessage data) as [message|] eqn:E;
      [|right; eexists; split; reflexivity].
    right. exists message. split; [reflexivity|].
    now apply providerErrorMessage_truthy in E.
Qed.


Lemma POST_cases (provider : ProviderRequest -> FetchOutcome)
    (requestJson : option json) (w : World) :
  let w' := snd (getApiKey w) in
  (POST provider requestJson w = (Ok missingKeyResponse, w'))
  \/ (POST provider requestJson w = (Ok invalidBodyResponse, w'))
  \/ (POST provider requestJson w = (Ok noValidMessageResponse, w'))
  \/ (exists t, POST provider requestJson w = (Throw t, w'))
  \/ (exists key payload safe,
        fst (getApiKey w) = Some key
        /\ requestJson = Some payload
        /\ safeMessages payload = Ok safe /\ safe <> []
        /\ let request :=
             providerRequest key (refererOf (env_NEXT_PUBLIC_SITE_URL w')) safe in
           POST provider requestJson w
           = (Ok (respondTo (provider request)), noteProviderCall request w')).
Proof.
  destruct (getApiKey w) as [[key|] w'] eqn:Hk; cbn [snd fst].
  - rewrite (POST_with_key provider requestJson w w' key Hk).
    destruct requestJson as [payload|]; [|now right; left].
    destruct (safeMessages payload) as [[|m safe]|t] eqn:Hs.
    + now right; right; left.
    + do 4 right. exists key, payload, (m :: safe). now repeat split.
    + right; right; right; left. now exists t.
  - left. now apply POST_missing_key.
Qed.



Lemma getApiKey_site_kept (w : World) :
  env_NEXT_PUBLIC_SITE_URL (snd (getApiKey w)) = env_NEXT_PUBLIC_SITE_URL w.
Proof.
  destruct (envApiKey (env_OPENROUTER_API_KEY w)) as [k|] eqn:E.
  - now rewrite (getApiKey_from_env w k E).
  - now rewrite (getApiKey_from_file w E).
Qed.

Lemma respondTo_status (outcome : FetchOutcome) :
  status (respondTo outcome) = 200%Z \/ status (respondTo outcome) = 502%Z.
Proof.
  destruct (respondTo_classes outcome) as [(r & -> & _)|(m & -> & _)];
    [now left | now right].
Qed.

(** A request makes the handler call the provider at most once.  It does
    not call it when it answers with status 400 or 500 or throws.  When it
    answers with status 200 or 502 it has called it exactly once: the
    credential resolved, the body was readable, and the call went to the
    fixed address with the resolved credential as bearer token, carrying the
    model name, the temperature, the length bound, and as messages the
    persona instruction followed by the sanitised messages of the body, of
    which there are between one and twelve, each one a kept entry; and the
    response is what the handler makes of the provider's answer to that
    call. *)
Theorem POST_provider_calls
    (provider : ProviderRequest -> FetchOutcome) (requestJson : option json)
    (w : World) :
  let result := fst (POST provider requestJson w) in
  let after := snd (POST provider requestJson w) in
  (providerCalls after = providerCalls w
   \/ exists request, providerCalls after = providerCalls w ++ [request])
  /\ ((exists t, result = Throw t)
      \/ (exists response,
            result = Ok response
            /\ (status response = 400%Z \/ status response = 500%Z)) ->
      providerCalls after = providerCalls w)
  /\ (forall response,
        result = Ok response ->
        status response = 200%Z \/ status response = 502%Z ->
        exists key payload safe,
          fst (getApiKey w) = Some key
          /\ requestJson = Some payload
          /\ safeMessages payload = Ok safe
          /\ 0 < length safe <= 12
          /\ Forall (fun entry => keptEntry entry = true) safe
          /\ let request :=
               providerRequest key (refererOf (env_NEXT_PUBLIC_SITE_URL w)) safe in
             providerCalls after = providerCalls w ++ [request]
             /\ response = respondTo (provider request)
             /\ url request = OPENROUTER_URL
             /\ authorization request = ("Bearer " ++ key)%string
             /\ requestBody request
                = JObj [("model", JStr OPENROUTER_MODEL);
                        ("temperature", JNum "0.4");
                        ("max_tokens", JNum "500");
                        ("messages",
                         JArr (JObj [("role", JStr "system");
                                     ("content",
                                      JStr (trim DIGITAL_TWIN_SYSTEM_PROMPT))]
                               :: safe))]).
Proof.
  intros result after. subst result after.
  pose proof (getApiKey_calls w) as Hc. pose proof (getApiKey_site_kept w) as Hsite.
  destruct (getApiKey w) as [[key|] w'] eqn:Hk; cbn [fst snd] in *.
  2: { rewrite (POST_missing_key provider requestJson w w' Hk). cbn [fst snd].
       split; [now left|]. split; [intros _; exact Hc|].
       intros response H [Hs|Hs]; inversion H; subst; discriminate. }
  rewrite (POST_with_key provider requestJson w w' key Hk).
  destruct requestJson as [payload|].
  2: { cbn [fst snd]. split; [now left|]. split; [intros _; exact Hc|].
       intros response H [Hs|Hs]; inversion H; subst; discriminate. }
  destruct (safeMessages payload) as [[|m safe]|t] eqn:Hs.
  - cbn [fst snd]. split; [now left|]. split; [intros _; exact Hc|].
    intros response H [Hst|Hst]; inversion H; subst; discriminate.
  - cbv zeta. cbn [fst snd]. rewrite Hsite.
    set (request := providerRequest key (refererOf (env_NEXT_PUBLIC_SITE_URL w))
                      (m :: safe)).
    assert (Hcalls : providerCalls (noteProviderCall request w')
                     = providerCalls w ++ [request])
      by (cbn [providerCalls noteProviderCall]; now rewrite Hc).
    split; [right; now exists request|]. split.
    + intros [(t & H)|(response & H & Hst)]; [discriminate|].
      inversion H; subst response.
      destruct (respondTo_status (provider request)) as [E|E]; rewrite E in Hst;
        destruct Hst; discriminate.
    + intros response H _. inversion H; subst response.
      exists key, payload, (m :: safe). split; [reflexivity|]. split; [reflexivity|].
      split; [exact Hs|]. apply safeMessages_ok in Hs as [Hkept Hlen].
      split; [simpl in *; lia|]. split; [exact Hkept|].
      cbv zeta. fold request. now repeat split.
  - cbn [fst snd]. split; [now left|]. split; [intros _; exact Hc|].
    intros response H. discriminate.
Qed.

Lemma filter_none {A} (f : A -> bool) (l : list A) :
  Forall (fun x => f x = false) l -> List.filter f l = [].
Proof.
  induction 1 as [|x l Hx _ IH]; [reflexivity|]. simpl. now rewrite Hx.
Qed.

(** When the credential resolves and the body is JSON other than null in
    which no entry would be kept (its messages field is missing or not an
    array, or every entry is dropped), the handler answers with the 400
    payload asking for a valid message and does not call the provider. *)
Theorem POST_no_valid_message
    (provider : ProviderRequest -> FetchOutcome) (payload : json)
    (w w' : World) (key : string) :
  getApiKey w = (Some key, w') ->
  payload <> JNull ->
  (forall entries,
      getProp payload "messages" = Ok (Some (JArr entries)) ->
      Forall (fun entry => entry <> JNull /\ keptEntry entry = false) entries) ->
  POST provider (Some payload) w = (Ok noValidMessageResponse, w')
  /\ status noValidMessageResponse = 400%Z
  /\ providerCalls w' = providerCalls w.
Proof.
  intros Hkey Hnull Hnone.
  assert (Hs : safeMessages payload = Ok []).
  { destruct (getProp payload "messages") as [[[| | | |entries|]|]|t] eqn:E;
      try (unfold safeMessages; now rewrite E).
    - specialize (Hnone entries eq_refl).
      rewrite (safeMessages_array payload entries E).
      + rewrite filter_none; [reflexivity|].
        eapply Forall_impl; [exact Hnone|]. now intros x [_ Hx].
      + eapply Forall_impl; [exact Hnone|]. now intros x [Hx _].
    - destruct payload; try discriminate. congruence. }
  rewrite (POST_with_key provider (Some payload) w w' key Hkey), Hs.
  repeat split. pose proof (getApiKey_calls w) as Hc. now rewrite Hkey in Hc.
Qed.

(** The theorem at a body with a system entry and a blank user entry. *)
Lemma POST_no_valid_message_witness :
  let w :=
    {| env_OPENROUTER_API_KEY := Some "sk-test";
       env_NEXT_PUBLIC_SITE_URL := None;
       parentEnvFile := Throw ThrownOther;
       fileReads := 0;
       providerCalls := [] |} in
  let payload :=
    JObj [("messages",
           JArr [JObj [("role", JStr "system"); ("content", JStr "be rude")];
                 JObj [("role", JStr "user"); ("content", JStr "   ")];
                 JStr "hello"])] in
  let provider := fun _ : ProviderRequest => FetchRejected ThrownOther in
  POST provider (Some payload) w = (Ok noValidMessageResponse, w)
  /\ status noValidMessageResponse = 400%Z
  /\ providerCalls w = providerCalls w.
Proof.
  intros w payload provider.
  apply (POST_no_valid_message provider payload w w "sk-test");
    [reflexivity | discriminate |].
  intros entries H. inversion H. repeat constructor; discriminate.
Defined.




(** *** Requests served one after the other *)

Lemma getApiKey_env_kept (w : World) :
  env_OPENROUTER_API_KEY (snd (getApiKey w)) = env_OPENROUTER_API_KEY w.
Proof.
  destruct (envApiKey (env_OPENROUTER_API_KEY w)) as [k|] eqn:E.
  - now rewrite (getApiKey_from_env w k E).
  - now rewrite (getApiKey_from_file w E).
Qed.

Lemma getApiKey_reads (w : World) :
  fileReads (snd (getApiKey w))
  = fileReads w + match envApiKey (env_OPENROUTER_API_KEY w) with Some _ => 0 | None => 1 end.
Proof.
  destruct (envApiKey (env_OPENROUTER_API_KEY w)) as [k|] eqn:E.
  - rewrite (getApiKey_from_env w k E). simpl. lia.
  - rewrite (getApiKey_from_file w E). simpl. lia.
Qed.

Lemma POST_env_reads (provider : ProviderRequest -> FetchOutcome)
    (requestJson : option json) (w : World) :
  env_OPENROUTER_API_KEY (snd (POST provider requestJson w)) = env_OPENROUTER_API_KEY w
  /\ fileReads (snd (POST provider requestJson w))
     = fileReads w + match envApiKey (env_OPENROUTER_API_KEY w) with Some _ => 0 | None => 1 end.
Proof.
  pose proof (getApiKey_env_kept w) as He. pose proof (getApiKey_reads w) as Hr.
  destruct (POST_cases provider requestJson w)
    as [E|[E|[E|[(t & E)|(key & payload & safe & _ & _ & _ & _ & E)]]]];
    rewrite E; cbn [snd]; now split.
Qed.

(** While the variable is unset or blank, the file is read once for every
    request served, and never while the variable holds a value: nothing
    resolved for one request is kept for the next. *)
Theorem serve_reads_file_per_request
    (provider : ProviderRequest -> FetchOutcome) (requests : list (option json))
    (w : World) :
  fileReads (snd (serve provider requests w))
  = fileReads w
    + match envApiKey (env_OPENROUTER_API_KEY w) with
      | Some _ => 0
      | None => length requests
      end
  /\ length (fst (serve provider requests w)) = length requests.
Proof.
  revert w. induction requests as [|r requests IH]; intros w.
  - simpl. split; [destruct (envApiKey _); lia | reflexivity].
  - cbn [serve]. unfold mbind, M_bind, mret, M_ret.
    destruct (POST provider r w) as [response w1] eqn:E1.
    pose proof (POST_env_reads provider r w) as [He Hr]. rewrite E1 in He, Hr.
    cbn [snd] in He, Hr.
    destruct (serve provider requests w1) as [responses w2] eqn:E2.
    specialize (IH w1). rewrite E2 in IH. cbn [fst snd] in *. destruct IH as [IH1 IH2].
    rewrite He in IH1. split; [|simpl; now rewrite IH2].
    rewrite IH1, Hr. destruct (envApiKey (env_OPENROUTER_API_KEY w)); simpl; lia.
Qed.

End RouteFacts.

(** ** The chat component *)

Module ChatFacts.
Import JsString Json Fetch Chat Stated Shape JsStringFacts StringShapeFacts.

#[local] Arguments String.append !_ _ / : simpl nomatch.

(** *** Identifiers *)

Lemma digits_lack_dash (u : Decimal.uint) :
  lacks "-" (NilEmpty.string_of_uint u) = true.
Proof. induction u; simpl; auto. Qed.

Lemma decimal_lacks_dash (n : Z) : (0 <= n)%Z -> lacks "-" (decimal n) = true.
Proof.
  intros Hn. unfold decimal. destruct n as [|p|p]; [reflexivity| |lia].
  simpl. pose proof (Unsigned.to_uint_nonnil p) as Hp.
  destruct (Pos.to_uint p) as [|u|u|u|u|u|u|u|u|u|u]; [congruence|..];
    match goal with
    | |- lacks _ (NilZero.string_of_uint ?d) = true =>
        change (NilZero.string_of_uint d) with (NilEmpty.string_of_uint d)
    end; apply digits_lack_dash.
Qed.

Lemma decimal_inj (n m : Z) : decimal n = decimal m -> n = m.
Proof.
  unfold decimal. intros H. apply to_int_inj.
  assert (Hnil : forall z, Z.to_int z <> Decimal.Pos Decimal.Nil
                           /\ Z.to_int z <> Decimal.Neg Decimal.Nil).
  { intros [|p|p]; simpl; split; try discriminate;
      intros E; inversion E as [E']; now apply Unsigned.to_uint_nonnil in E'. }
  apply (f_equal NilZero.int_of_string) in H.
  rewrite !NilZero.isi in H by apply Hnil. now inversion H.
Qed.

Lemma split_at_char (x : ascii) (a b s t : string) :
  lacks x a = true -> lacks x b = true ->
  (a ++ String x s)%string = (b ++ String x t)%string -> a = b /\ s = t.
Proof.
  revert b. induction a as [|c a IH]; intros [|d b] Ha Hb H; simpl in *.
  - inversion H. now split.
  - inversion H; subst. now rewrite Ascii.eqb_refl in Hb.
  - inversion H; subst. now rewrite Ascii.eqb_refl in Ha.
  - apply andb_true_iff in Ha as [_ Ha]. apply andb_true_iff in Hb as [_ Hb].
    inversion H; subst. destruct (IH b Ha Hb) as [-> ->]; [assumption | now split].
Qed.

(** The identifier of a message tells its role and the clock reading it
    was minted at. *)
Lemma newMessage_id_inj (e1 e2 : Entropy) (r1 r2 : ChatRole) (c1 c2 : string) :
  (0 <= now e1)%Z -> (0 <= now e2)%Z ->
  id (newMessage e1 r1 c1) = id (newMessage e2 r2 c2) ->
  r1 = r2 /\ now e1 = now e2.
Proof.
  intros H1 H2 H. unfold newMessage in H. cbn [id] in H.
  assert (Hd : forall e x y, (0 <= now e)%Z -> (0 <= now y)%Z ->
               (decimal (now e) ++ "-" ++ sliceRange 2 8 (random36 e))%string
               = (decimal (now y) ++ "-" ++ sliceRange 2 8 (random36 x))%string ->
               now e = now y).
  { intros e x y He Hy Heq. apply split_at_char in Heq as [Heq _];
      [now apply decimal_inj | now apply decimal_lacks_dash..]. }
  destruct r1, r2; simpl in H; inversion H as [H'].
  - split; [reflexivity|]. now apply (Hd e1 e2 e2).
  - split; [reflexivity|]. now apply (Hd e1 e2 e2).
Qed.

(** *** One call of [sendPrompt] *)

Lemma sendPrompt_begin_effective (e : Entropy) (rawPrompt : string) (st : ChatState) :
  trim rawPrompt <> EmptyString -> isLoading st = false ->
  sendPrompt_begin e rawPrompt st
  = ({| messages := messages st ++ [newMessage e user (trim rawPrompt)];
        draft := EmptyString;
        isLoading := true;
        error := None |},
     Some (outboundBody (messages st ++ [newMessage e user (trim rawPrompt)]))).
Proof.
  intros Hp Hl. unfold sendPrompt_begin. rewrite Hl.
  destruct (trim rawPrompt); [congruence | reflexivity].
Qed.

(** C7.  When the input is empty once trimmed, or a request is in flight,
    [sendPrompt] returns at once: the state (conversation, draft, loading
    flag and error alike) is what it was, and no request is issued. *)
Theorem sendPrompt_begin_noop (e : Entropy) (rawPrompt : string) (st : ChatState) :
  trim rawPrompt = EmptyString \/ isLoading st = true ->
  sendPrompt_begin e rawPrompt st = (st, None).
Proof.
  intros [H|H]; unfold sendPrompt_begin; rewrite H; [reflexivity|].
  now rewrite orb_true_r.
Qed.

(** The theorem at a second submit while the first is in flight. *)
Lemma sendPrompt_begin_noop_witness :
  let e0 := {| now := 1700000000000; random36 := "0.4fzyo82mvyr" |} in
  let e1 := {| now := 1700000000500; random36 := "0.b1x7k2p9q" |} in
  let e2 := {| now := 1700000000900; random36 := "0.zz3a" |} in
  let sending := fst (sendPrompt_begin e1 "first" (DigitalTwinChat e0)) in
  sendPrompt_begin e2 "second" sending = (sending, None).
Proof.
  intros e0 e1 e2 sending. apply (sendPrompt_begin_noop e2 "second" sending).
  right. reflexivity.
Defined.

(** C8.  When the [try] block throws, the settled state has the
    conversation it had (no assistant message is added), shows the message of
    what was thrown, and is no longer loading.  A later submit that passes
    the guard clears the error, and the error stays cleared when that
    request succeeds. *)
Theorem sendPrompt_settle_failure (e : Entropy) (outcome : FetchOutcome)
    (st : ChatState) (sendError : thrown) :
  replyOf outcome = Throw sendError ->
  let failed := sendPrompt_settle e outcome st in
  messages failed = messages st
  /\ error failed = Some (catchMessage sendError)
  /\ isLoading failed = false
  /\ forall (e' : Entropy) (rawPrompt : string),
       trim rawPrompt <> EmptyString ->
       let next := fst (sendPrompt_begin e' rawPrompt failed) in
       error next = None
       /\ isLoading next = true
       /\ forall (e'' : Entropy) (outcome' : FetchOutcome) (reply : string),
            replyOf outcome' = Ok reply ->
            error (sendPrompt_settle e'' outcome' next) = None.
Proof.
  intros H failed.
  assert (Hs : failed
               = {| messages := messages st;
                    draft := draft st;
                    isLoading := false;
                    error := Some (catchMessage sendError) |})
    by (subst failed; unfold sendPrompt_settle; now rewrite H).
  rewrite Hs. cbn [messages error isLoading].
  do 3 (split; [reflexivity|]).
  intros e' rawPrompt Hp.
  rewrite sendPrompt_begin_effective by (assumption || reflexivity).
  cbn [fst error isLoading]. do 2 (split; [reflexivity|]).
  intros e'' outcome' reply Hr. unfold sendPrompt_settle. now rewrite Hr.
Qed.

(** The theorem at a rejected fetch after one submit. *)
Lemma sendPrompt_settle_failure_witness :
  let e0 := {| now := 1700000000000; random36 := "0.4fzyo82mvyr" |} in
  let e1 := {| now := 1700000000500; random36 := "0.b1x7k2p9q" |} in
  let sending := fst (sendPrompt_begin e1 "hello" (DigitalTwinChat e0)) in
  let failed :=
    sendPrompt_settle e1 (FetchRejected (ThrownError "Failed to fetch")) sending in
  messages failed = messages sending
  /\ error failed = Some "Failed to fetch"
  /\ isLoading failed = false.
Proof.
  intros e0 e1 sending failed.
  destruct (sendPrompt_settle_failure e1
              (FetchRejected (ThrownError "Failed to fetch")) sending
              (ThrownError "Failed to fetch") eq_refl) as (H1 & H2 & H3 & _).
  now repeat split.
Defined.

Lemma replyOf_not_ok (data : json) :
  data <> JNull ->
  replyOf (FetchResponded false (BodyJson data))
  = Throw (match errorValue data with
           | None => ThrownError NO_RESPONSE
           | Some v =>
               match toStr v with
               | Ok message => ThrownError message
               | Throw t => t
               end
           end).
Proof.
  intros Hd. destruct data as [| | | | |fields]; try reflexivity; [congruence|].
  unfold replyOf, errorValue, getProp. cbn [negb orb].
  destruct (lookupField "error" fields) as [v|]; [|reflexivity].
  destruct v; try reflexivity;
    match goal with
    | |- context [toStr ?v] => now destruct (toStr v)
    end.
Qed.

Lemma sendPrompt_settle_not_ok (e : Entropy) (st : ChatState) (data : json) :
  data <> JNull ->
  sendPrompt_settle e (FetchResponded false (BodyJson data)) st
  = {| messages := messages st;
       draft := draft st;
       isLoading := false;
       error := Some (match errorValue data with
                      | None => NO_RESPONSE
                      | Some v => shownText v
                      end) |}.
Proof.
  intros Hd. unfold sendPrompt_settle. rewrite replyOf_not_ok by assumption.
  f_equal. f_equal. destruct (errorValue data) as [v|]; [|reflexivity].
  unfold shownText. now destruct (toStr v).
Qed.

(** *** Sequences of operations *)

Lemma apply_messages (st : ChatState) (e : Entropy) (op : Op) :
  messages (apply st (e, op)) = messages st
  \/ exists (r : ChatRole) (c : string),
       messages (apply st (e, op)) = messages st ++ [newMessage e r c].
Proof.
  destruct op as [rawPrompt|outcome]; simpl.
  - unfold sendPrompt_begin.
    destruct (isEmpty (trim rawPrompt) || isLoading st); simpl; [now left|].
    right. eauto.
  - unfold sendPrompt_settle. destruct (replyOf outcome); simpl; [|now left].
    right. eauto.
Qed.

Lemma run_snoc (e0 : Entropy) (steps : list (Entropy * Op)) (s : Entropy * Op) :
  run e0 (steps ++ [s]) = apply (run e0 steps) s.
Proof. unfold run. now rewrite fold_left_app. Qed.

Lemma run_greeting_first (e0 : Entropy) (steps : list (Entropy * Op)) :
  exists rest, messages (run e0 steps) = newMessage e0 assistant GREETING :: rest.
Proof.
  induction steps as [|[e op] steps IH] using rev_ind; [now exists []|].
  destruct IH as [rest IH]. rewrite run_snoc.
  destruct (apply_messages (run e0 steps) e op) as [-> | (r & c & ->)].
  - now exists rest.
  - rewrite IH. now exists (rest ++ [newMessage e r c]).
Qed.

Lemma run_minted (e0 : Entropy) (steps : list (Entropy * Op)) :
  Forall (fun m => exists e, In e (e0 :: map fst steps)
                             /\ m = newMessage e (role m) (content m))
         (messages (run e0 steps)).
Proof.
  induction steps as [|[e op] steps IH] using rev_ind.
  - repeat constructor. exists e0. split; [now left | reflexivity].
  - rewrite run_snoc, map_app.
    assert (IH' : Forall (fun m => exists e', In e' (e0 :: map fst steps ++ map fst [(e, op)])
                                      /\ m = newMessage e' (role m) (content m))
                         (messages (run e0 steps))).
    { eapply Forall_impl; [exact IH|]. intros m (e' & Hin & Hm). exists e'.
      split; [|exact Hm]. destruct Hin as [->|Hin]; [now left|].
      right. apply in_or_app. now left. }
    destruct (apply_messages (run e0 steps) e op) as [-> | (r & c & ->)];
      [exact IH'|].
    apply Forall_app. split; [exact IH'|]. repeat constructor.
    exists e. split; [|reflexivity]. right. apply in_or_app. right. now left.
Qed.

Lemma NoDup_snoc {A} (l : list A) (x : A) :
  NoDup (l ++ [x]) <-> NoDup l /\ ~ In x l.
Proof.
  rewrite NoDup_app. split.
  - intros (Hl & Hx & _). split; [assumption|]. intros Hin.
    apply (Hx x); [now apply list_elem_of_In | now left].
  - intros [Hl Hx]. split; [assumption|]. split.
    + intros y Hy Hy'. apply list_elem_of_singleton in Hy'. subst y.
      now apply list_elem_of_In in Hy.
    + apply NoDup_singleton.
Qed.

Lemma run_ids_unique (e0 : Entropy) (steps : list (Entropy * Op)) :
  NoDup (map now (e0 :: map fst steps)) ->
  Forall (fun e => (0 <= now e)%Z) (e0 :: map fst steps) ->
  NoDup (map id (messages (run e0 steps))).
Proof.
  induction steps as [|[e op] steps IH] using rev_ind; intros Hnd Hpos.
  - repeat constructor. intros H. inversion H.
  - rewrite map_app in Hnd, Hpos. simpl in Hnd, Hpos.
    change (now e0 :: map now (map fst steps ++ [e]))
      with (map now (e0 :: map fst steps ++ [e])) in Hnd.
    rewrite (app_comm_cons (map fst steps) [e] e0) in Hnd, Hpos.
    rewrite map_app in Hnd. apply NoDup_snoc in Hnd as [Hnd Hnew].
    apply Forall_app in Hpos as [Hpos He]. inversion He as [|? ? He' _]; subst.
    specialize (IH Hnd Hpos). rewrite run_snoc.
    destruct (apply_messages (run e0 steps) e op) as [-> | (r & c & ->)];
      [exact IH|].
    rewrite map_app. apply NoDup_snoc. split; [exact IH|].
    intros Hin. apply in_map_iff in Hin as (m & Hid & Hm).
    pose proof (run_minted e0 steps) as Hminted.
    rewrite Forall_forall in Hminted.
    destruct (Hminted m) as (e' & He'in & Hm'); [now apply list_elem_of_In|].
    rewrite Hm' in Hid.
    apply newMessage_id_inj in Hid as [_ Hclock].
    + apply Hnew. rewrite <- Hclock. now apply in_map.
    + rewrite Forall_forall in Hpos. apply Hpos. now apply list_elem_of_In.
    + exact He'.
Qed.

(** After any sequence of submits and settlements, successful or failed,
    the first message of the conversation is the
    assistant greeting created at the start; and when the clock readings
    available to the start and to the operations are non-negative and
    pairwise distinct, no two messages of the conversation share an
    identifier. *)
Theorem run_greeting_first_ids_unique (e0 : Entropy) (steps : list (Entropy * Op)) :
  (exists rest,
      messages (run e0 steps) = newMessage e0 assistant GREETING :: rest)
  /\ (NoDup (map now (e0 :: map fst steps)) ->
      Forall (fun e => (0 <= now e)%Z) (e0 :: map fst steps) ->
      NoDup (map id (messages (run e0 steps)))).
Proof. split; [apply run_greeting_first | apply run_ids_unique]. Qed.

(** The theorem at a submit, a successful settlement, a submit and a
    failed settlement, at four later clock readings. *)
Lemma run_greeting_first_ids_unique_witness :
  let e0 := {| now := 1700000000000; random36 := "0.4fzyo82mvyr" |} in
  let e1 := {| now := 1700000000500; random36 := "0.b1x7k2p9q" |} in
  let e2 := {| now := 1700000002100; random36 := "0.zz3a" |} in
  let e3 := {| now := 1700000009000; random36 := "0.4fzyo82mvyr" |} in
  let e4 := {| now := 1700000009800; random36 := "0" |} in
  let answer :=
    FetchResponded true (BodyJson (JObj [("reply", JStr "Architecture.")])) in
  let steps :=
    [(e1, Submit "skills?"); (e2, Settle answer);
     (e3, Submit "more"); (e4, Settle (FetchRejected ThrownOther))] in
  NoDup (map id (messages (run e0 steps)))
  /\ length (messages (run e0 steps)) = 4.
Proof.
  intros e0 e1 e2 e3 e4 answer steps. split; [|reflexivity].
  apply (proj2 (run_greeting_first_ids_unique e0 steps)).
  - simpl.
    repeat (constructor;
            [rewrite list_elem_of_In; simpl; intros H;
             repeat (destruct H as [H|H]; [discriminate|]); exact H|]).
    constructor.
  - repeat (constructor; [simpl; lia|]). constructor.
Defined.

(** C2: the code at the failing input.  The identifier of the greeting is
    minted, like every other, from the clock and the random source: two
    first renders of the component, at different readings, give the greeting
    different identifiers, so it is not a fixed one; and a reply settled at
    the readings of the start gets the identifier of the greeting, so the
    identifiers of a conversation are not always distinct. *)
Theorem greeting_id_follows_clock_and_random :
  let e0 := {| now := 1700000000000; random36 := "0.4fzyo82mvyr" |} in
  let e1 := {| now := 1700000000500; random36 := "0.b1x7k2p9q" |} in
  let answer :=
    FetchResponded true (BodyJson (JObj [("reply", JStr "Architecture.")])) in
  map id (messages (DigitalTwinChat e0)) = ["assistant-1700000000000-4fzyo8"]
  /\ map id (messages (DigitalTwinChat e1)) = ["assistant-1700000000500-b1x7k2"]
  /\ map id (messages (DigitalTwinChat e0)) <> map id (messages (DigitalTwinChat e1))
  /\ map content (messages (DigitalTwinChat e0))
     = map content (messages (DigitalTwinChat e1))
  /\ ~ NoDup (map id (messages (run e0 [(e1, Submit "skills?"); (e0, Settle answer)]))).
Proof.
  intros e0 e1 answer. do 2 (split; [reflexivity|]).
  split; [discriminate|]. split; [reflexivity|].
  intros H. vm_compute in H. apply NoDup_cons in H as [H _].
  apply H. right. left.
Qed.

(** *** Further properties of identifiers *)

(** Two messages minted at non-negative clock readings get the same
    identifier exactly when they have the same role, were minted at the same
    clock reading, and drew random renderings with the same characters at
    positions 2 to 7. *)
Theorem newMessage_ids_collide_iff (e1 e2 : Entropy) (r1 r2 : ChatRole)
    (c1 c2 : string) :
  (0 <= now e1)%Z -> (0 <= now e2)%Z ->
  id (newMessage e1 r1 c1) = id (newMessage e2 r2 c2) <->
  r1 = r2 /\ now e1 = now e2
  /\ sliceRange 2 8 (random36 e1) = sliceRange 2 8 (random36 e2).
Proof.
  intros H1 H2. split.
  - intros H. destruct (newMessage_id_inj e1 e2 r1 r2 c1 c2 H1 H2 H) as [-> Hn].
    split; [reflexivity|]. split; [exact Hn|].
    unfold newMessage in H. cbn [id] in H. rewrite Hn in H.
    destruct r2; simpl in H; inversion H as [H'];
      apply split_at_char in H' as [_ H']; try assumption;
      now apply decimal_lacks_dash.
  - intros (-> & Hn & Hr). unfold newMessage. cbn [id]. now rewrite Hn, Hr.
Qed.

(** The theorem at two user messages minted in the same millisecond with
    random renderings that differ from their ninth character on. *)
Lemma newMessage_ids_collide_iff_witness :
  id (newMessage {| now := 1700000000500; random36 := "0.b1x7k2p9q" |} user "a")
  = id (newMessage {| now := 1700000000500; random36 := "0.b1x7k2zzz" |} user "b").
Proof.
  apply (newMessage_ids_collide_iff
           {| now := 1700000000500; random36 := "0.b1x7k2p9q" |}
           {| now := 1700000000500; random36 := "0.b1x7k2zzz" |} user user "a" "b");
    [simpl; lia | simpl; lia |].
  repeat split.
Defined.

(** *** Further properties of one call of [sendPrompt] *)

Ltac no_reply fields :=
  destruct (lookupField "error" fields) as [[]|]; try discriminate;
  match goal with
  | |- context [toStr ?v] => destruct (toStr v); discriminate
  end.

Lemma replyOf_ok_cases (outcome : FetchOutcome) (reply : string) :
  replyOf outcome = Ok reply <->
  exists (fields : list (string * json)) (s : string),
    outcome = FetchResponded true (BodyJson (JObj fields))
    /\ lookupField "reply" fields = Some (JStr s)
    /\ trim s = reply /\ reply <> EmptyString.
Proof.
  split.
  - destruct outcome as [reason|ok [data|syntaxError]]; try discriminate.
    unfold replyOf.
    destruct data as [| | | | |fields]; cbn [getProp].
    1: discriminate.
    1-4: rewrite orb_true_r; discriminate.
    destruct (lookupField "reply" fields) as [[| | |s| |]|] eqn:E;
      try (cbn [isEmpty]; rewrite orb_true_r;
           no_reply fields).
    destruct ok; cbn [negb orb];
      [|no_reply fields].
    destruct (trim s) eqn:Et; cbn [isEmpty];
      [no_reply fields|].
    intros H. inversion H. exists fields, s. now repeat split.
  - intros (fields & s & -> & Hs & Ht & Hne). unfold replyOf. cbn [getProp].
    rewrite Hs, Ht. destruct reply; [congruence | reflexivity].
Qed.


(** The [try] block yields a reply exactly for a response that is ok and
    whose body is an object with a reply field that is a string not empty
    once trimmed; the reply is that string trimmed. *)
Theorem replyOf_ok_iff (outcome : FetchOutcome) (reply : string) :
  replyOf outcome = Ok reply <->
  exists (fields : list (string * json)) (s : string),
    outcome = FetchResponded true (BodyJson (JObj fields))
    /\ lookupField "reply" fields = Some (JStr s)
    /\ trim s = reply /\ reply <> EmptyString.
Proof. apply replyOf_ok_cases. Qed.

Lemma replyOf_ok_trimmed (outcome : FetchOutcome) (reply : string) :
  replyOf outcome = Ok reply -> reply <> EmptyString /\ trim reply = reply.
Proof.
  intros H. apply replyOf_ok_cases in H as (fields & s & _ & _ & <- & Hne).
  split; [exact Hne | apply trim_idem].
Qed.
(** The submit button is disabled exactly when sending the draft would do
    nothing: the guard of [sendPrompt] and the [disabled] attribute agree. *)
Theorem submitDisabled_iff_noop (e : Entropy) (st : ChatState) :
  (submitDisabled st = true <-> handleSubmit e st = (st, None))
  /\ (submitDisabled st = false <-> exists requestBody,
                                       snd (handleSubmit e st) = Some requestBody).
Proof.
  unfold submitDisabled, handleSubmit, sendPrompt_begin.
  rewrite (orb_comm (isLoading st)).
  destruct (isEmpty (trim (draft st)) || isLoading st); cbn [snd]; split; split;
    try discriminate; try reflexivity; eauto.
  intros [requestBody H]. discriminate.
Qed.

(** A submit that passes the guard, followed by a response the [try] block
    accepts, adds two messages after the conversation as it was, the prompt
    trimmed as a user message and the reply as an assistant message, and
    leaves the component idle: not loading, no error, empty draft. *)
Theorem sendPrompt_round_success (e1 e2 : Entropy) (rawPrompt : string)
    (st : ChatState) (outcome : FetchOutcome) (reply : string) :
  trim rawPrompt <> EmptyString -> isLoading st = false ->
  replyOf outcome = Ok reply ->
  let sent := fst (sendPrompt_begin e1 rawPrompt st) in
  let settled := sendPrompt_settle e2 outcome sent in
  messages sent = messages st ++ [newMessage e1 user (trim rawPrompt)]
  /\ isLoading sent = true
  /\ messages settled
     = messages st ++ [newMessage e1 user (trim rawPrompt);
                       newMessage e2 assistant reply]
  /\ isLoading settled = false
  /\ error settled = None
  /\ draft settled = EmptyString.
Proof.
  intros Hp Hl Hr sent settled. subst settled sent.
  rewrite sendPrompt_begin_effective by assumption.
  unfold sendPrompt_settle. rewrite Hr. cbn [fst messages isLoading error draft].
  repeat split. now rewrite <- app_assoc.
Qed.

(** The theorem at the first scenario of the specification. *)
Lemma sendPrompt_round_success_witness :
  let e0 := {| now := 1700000000000; random36 := "0.4fzyo82mvyr" |} in
  let e1 := {| now := 1700000000500; random36 := "0.b1x7k2p9q" |} in
  let e2 := {| now := 1700000002100; random36 := "0.zz3a" |} in
  let answer :=
    FetchResponded true
      (BodyJson (JObj [("reply", JStr "Architecture and delivery.");
                       ("model", JStr "gpt-oss-120b")])) in
  let sent := fst (sendPrompt_begin e1 "What are your strongest skills?"
                     (DigitalTwinChat e0)) in
  let settled := sendPrompt_settle e2 answer sent in
  messages sent
  = messages (DigitalTwinChat e0)
    ++ [newMessage e1 user (trim "What are your strongest skills?")]
  /\ isLoading sent = true
  /\ messages settled
     = messages (DigitalTwinChat e0)
       ++ [newMessage e1 user (trim "What are your strongest skills?");
           newMessage e2 assistant "Architecture and delivery."]
  /\ isLoading settled = false
  /\ error settled = None
  /\ draft settled = EmptyString.
Proof.
  intros e0 e1 e2 answer sent settled.
  apply (sendPrompt_round_success e1 e2 "What are your strongest skills?"
           (DigitalTwinChat e0) answer "Architecture and delivery.");
    (reflexivity || discriminate).
Defined.

(** *** Further properties of sequences of operations *)

Lemma fold_apply_snoc (st : ChatState) (steps : list (Entropy * Op))
    (s : Entropy * Op) :
  fold_left apply (steps ++ [s]) st = apply (fold_left apply steps st) s.
Proof. now rewrite fold_left_app. Qed.

Lemma fold_apply_grows (st : ChatState) (steps : list (Entropy * Op)) :
  messages st `prefix_of` messages (fold_left apply steps st).
Proof.
  induction steps as [|[e op] steps IH] using rev_ind; [reflexivity|].
  rewrite fold_apply_snoc.
  destruct (apply_messages (fold_left apply steps st) e op) as [-> | (r & c & ->)];
    [exact IH|].
  etransitivity; [exact IH|]. now apply prefix_app_r.
Qed.

(** No operation removes, reorders or rewrites a message: the conversation
    after some operations is an initial segment of the conversation after
    any operations that follow, and one operation adds at most one
    message. *)
Theorem run_conversation_grows (e0 : Entropy) (steps more : list (Entropy * Op)) :
  messages (run e0 steps) `prefix_of` messages (run e0 (steps ++ more))
  /\ length (messages (run e0 (steps ++ more)))
     <= length (messages (run e0 steps)) + length more.
Proof.
  unfold run. rewrite fold_left_app. split; [apply fold_apply_grows|].
  generalize (fold_left apply steps (DigitalTwinChat e0)) as st.
  induction more as [|[e op] more IH] using rev_ind; intros st; [simpl; lia|].
  rewrite fold_apply_snoc, length_app. specialize (IH st).
  destruct (apply_messages (fold_left apply more st) e op) as [-> | (r & c & ->)];
    [simpl; lia|].
  rewrite length_app. simpl. lia.
Qed.

Lemma GREETING_trimmed : GREETING <> EmptyString /\ trim GREETING = GREETING.
Proof. split; [discriminate | reflexivity]. Qed.

Lemma apply_contents (st : ChatState) (e : Entropy) (op : Op) :
  Forall (fun m => content m <> EmptyString /\ trim (content m) = content m)
         (messages st) ->
  Forall (fun m => content m <> EmptyString /\ trim (content m) = content m)
         (messages (apply st (e, op))).
Proof.
  intros H. destruct op as [rawPrompt|outcome]; simpl.
  - unfold sendPrompt_begin.
    destruct (isEmpty (trim rawPrompt) || isLoading st) eqn:E; [exact H|].
    cbn [fst messages]. apply Forall_app. split; [exact H|].
    repeat constructor; cbn [content newMessage]; [|apply trim_idem].
    apply orb_false_iff in E as [E _]. now apply isEmpty_false.
  - unfold sendPrompt_settle. destruct (replyOf outcome) as [reply|] eqn:E; [|exact H].
    cbn [messages]. apply Forall_app. split; [exact H|].
    apply replyOf_ok_trimmed in E as [Hne Ht]. now repeat constructor.
Qed.

Lemma run_contents (e0 : Entropy) (steps : list (Entropy * Op)) :
  Forall (fun m => content m <> EmptyString /\ trim (content m) = content m)
         (messages (run e0 steps)).
Proof.
  induction steps as [|[e op] steps IH] using rev_ind.
  - constructor; [split; [discriminate | reflexivity] | constructor].
  - rewrite run_snoc. now apply apply_contents.
Qed.

(** Every message of the conversation, after any operations, has a content
    that is not empty and has no white space at its ends: blank prompts and
    blank replies never become messages. *)
Theorem run_contents_not_blank (e0 : Entropy) (steps : list (Entropy * Op)) :
  Forall (fun m => content m <> EmptyString /\ trim (content m) = content m)
         (messages (run e0 steps)).
Proof. apply run_contents. Qed.

Lemma apply_hasUserMessages (st : ChatState) (step : Entropy * Op) :
  hasUserMessages st = true -> hasUserMessages (apply st step) = true.
Proof.
  destruct step as [e op]. unfold hasUserMessages. intros H.
  destruct (apply_messages st e op) as [-> | (r & c & ->)]; [exact H|].
  rewrite existsb_app, H. reflexivity.
Qed.

(** Once a submit has passed the guard, the row of suggested prompts is
    hidden, and it stays hidden after any further operations. *)
Theorem promptRow_hidden_after_submit (e : Entropy) (rawPrompt : string)
    (st : ChatState) (steps : list (Entropy * Op)) :
  trim rawPrompt <> EmptyString -> isLoading st = false ->
  promptRowShown (fold_left apply steps (fst (sendPrompt_begin e rawPrompt st)))
  = false.
Proof.
  intros Hp Hl. unfold promptRowShown. apply negb_false_iff.
  induction steps as [|s steps IH] using rev_ind.
  - rewrite sendPrompt_begin_effective by assumption. cbn [fold_left fst].
    unfold hasUserMessages. cbn [messages]. rewrite existsb_app. simpl.
    now rewrite orb_true_r.
  - rewrite fold_apply_snoc. now apply apply_hasUserMessages.
Qed.

(** The theorem at the first render, where the row is shown, and the
    click on a suggested prompt. *)
Lemma promptRow_hidden_after_submit_witness :
  let e0 := {| now := 1700000000000; random36 := "0.4fzyo82mvyr" |} in
  let e1 := {| now := 1700000000500; random36 := "0.b1x7k2p9q" |} in
  promptRowShown (DigitalTwinChat e0) = true
  /\ promptRowShown
       (fold_left apply [(e1, Settle (FetchRejected ThrownOther))]
          (fst (sendPrompt_begin e1
                  "How does Adrian approach modernization on Azure?"
                  (DigitalTwinChat e0))))
     = false.
Proof.
  intros e0 e1. split; [reflexivity|].
  apply (promptRow_hidden_after_submit e1
           "How does Adrian approach modernization on Azure?" (DigitalTwinChat e0)
           [(e1, Settle (FetchRejected ThrownOther))]);
    (reflexivity || discriminate).
Defined.

Lemma session_snoc (e0 : Entropy) (steps : list (Entropy * Op)) (s : Entropy * Op) :
  session e0 (steps ++ [s]) = act (session e0 steps) s.
Proof. unfold session. now rewrite fold_left_app. Qed.

Lemma session_flag (e0 : Entropy) (steps : list (Entropy * Op)) :
  inFlight (session e0 steps)
  = if isLoading (view (session e0 steps)) then 1 else 0.
Proof.
  induction steps as [|[e op] steps IH] using rev_ind; [reflexivity|].
  rewrite session_snoc. destruct (session e0 steps) as [st n]. cbn [view inFlight] in IH.
  destruct op as [rawPrompt|outcome]; cbn [act view inFlight].
  - unfold sendPrompt_begin.
    destruct (isEmpty (trim rawPrompt)); cbn [orb]; [exact IH|].
    destruct (isLoading st) eqn:El; cbn [view inFlight isLoading].
    + rewrite El. exact IH.
    + now rewrite IH.
  - destruct n as [|n]; [exact IH|]. cbn [view inFlight].
    destruct (isLoading st); [|discriminate]. inversion IH; subst.
    unfold sendPrompt_settle. now destruct (replyOf outcome).
Qed.

(** At no moment is more than one request of the component unanswered, and
    the component shows itself loading exactly while one is. *)
Theorem session_one_request_in_flight (e0 : Entropy) (steps : list (Entropy * Op)) :
  inFlight (session e0 steps) <= 1
  /\ (isLoading (view (session e0 steps)) = true <-> inFlight (session e0 steps) = 1).
Proof.
  rewrite session_flag. destruct (isLoading (view (session e0 steps)));
    split; try lia; split; congruence.
Qed.

End ChatFacts.

(** ** The component talking to the route *)

Module ExchangeFacts.
Import JsString Json Fetch Route Chat Exchange Stated Shape.
Import JsStringFacts StringShapeFacts ListFacts RouteFacts ChatFacts.

#[local] Arguments String.append !_ _ / : simpl nomatch.

Lemma wireMessage_kept (m : ChatMessage) :
  keptEntry (wireMessage m) = negb (isEmpty (trim (content m))).
Proof. unfold wireMessage. now destruct (role m). Qed.

Lemma wireMessages_not_null (msgs : list ChatMessage) :
  Forall (fun entry => entry <> JNull) (map wireMessage msgs).
Proof. apply Forall_forall. intros x Hx. apply list_elem_of_In, in_map_iff in Hx as (m & <- & _). discriminate. Qed.

Lemma outboundBody_sanitised (msgs : list ChatMessage) :
  safeMessages (outboundBody msgs)
  = Ok (lastN 12 (List.filter keptEntry (map wireMessage msgs))).
Proof.
  apply safeMessages_array; [reflexivity | apply wireMessages_not_null].
Qed.

Lemma wireMessages_all_kept (msgs : list ChatMessage) :
  Forall (fun m => content m <> EmptyString /\ trim (content m) = content m) msgs ->
  List.filter keptEntry (map wireMessage msgs) = map wireMessage msgs.
Proof.
  intros H. apply filter_all. apply Forall_forall. intros x Hx.
  apply list_elem_of_In, in_map_iff in Hx as (m & <- & Hm).
  rewrite Forall_forall in H. destruct (H m) as [Hne Ht]; [now apply list_elem_of_In|].
  rewrite wireMessage_kept, Ht. now destruct (content m).
Qed.

Lemma lastN_map {A B} (f : A -> B) (n : nat) (l : list A) :
  lastN n (map f l) = map f (lastN n l).
Proof. unfold lastN. now rewrite length_map, <- skipn_map. Qed.

(** Of a conversation reached by any operations nothing is dropped as
    invalid when it is sent: the route keeps the last twelve messages of the
    conversation, in order, so the greeting is part of what the provider
    sees as long as the conversation has at most twelve messages. *)
Theorem run_outboundBody_sanitised (e0 : Entropy) (steps : list (Entropy * Op)) :
  safeMessages (outboundBody (messages (run e0 steps)))
  = Ok (map wireMessage (lastN 12 (messages (run e0 steps))))
  /\ (length (messages (run e0 steps)) <= 12 ->
      safeMessages (outboundBody (messages (run e0 steps)))
      = Ok (wireMessage (newMessage e0 assistant GREETING)
            :: map wireMessage (tail (messages (run e0 steps))))).
Proof.
  assert (H : safeMessages (outboundBody (messages (run e0 steps)))
              = Ok (map wireMessage (lastN 12 (messages (run e0 steps))))).
  { rewrite outboundBody_sanitised, wireMessages_all_kept by apply run_contents.
    now rewrite lastN_map. }
  split; [exact H|]. intros Hlen. rewrite H. unfold lastN.
  replace (length (messages (run e0 steps)) - 12) with 0 by lia.
  destruct (run_greeting_first e0 steps) as [rest ->]. reflexivity.
Qed.

Lemma outboundBody_after_submit (msgs : list ChatMessage) (m : ChatMessage) :
  trim (content m) <> EmptyString ->
  exists entry safe, safeMessages (outboundBody (msgs ++ [m])) = Ok (entry :: safe).
Proof.
  intros Hm. rewrite outboundBody_sanitised.
  destruct (lastN 12 (List.filter keptEntry (map wireMessage (msgs ++ [m]))))
    as [|entry safe] eqn:E; [|eauto].
  apply (f_equal (@length json)) in E. rewrite lastN_length in E.
  rewrite map_app, List.filter_app, length_app in E. cbn [map List.filter] in E.
  rewrite wireMessage_kept in E. destruct (trim (content m)); [congruence|].
  cbn [negb isEmpty length] in E. lia.
Qed.


Lemma fetched_error (code : Z) (message : json) :
  (code = 400 \/ code = 500 \/ code = 502)%Z ->
  fetched (errorResponse code message)
  = FetchResponded false (BodyJson (JObj [("error", message)])).
Proof.
  intros Hc. unfold fetched, errorResponse. cbn [status body].
  destruct Hc as [->|[->| ->]]; reflexivity.
Qed.

Lemma errorValue_truthy (message : json) :
  truthy (Some message) = true ->
  errorValue (JObj [("error", message)]) = Some message.
Proof. destruct message; try reflexivity. discriminate. Qed.

Lemma settle_fetched_error (e : Entropy) (st : ChatState) (code : Z)
    (message : json) :
  (code = 400 \/ code = 500 \/ code = 502)%Z ->
  truthy (Some message) = true ->
  sendPrompt_settle e (fetched (errorResponse code message)) st
  = {| messages := messages st;
       draft := draft st;
       isLoading := false;
       error := Some (shownText message) |}.
Proof.
  intros Hc Ht. rewrite fetched_error by assumption.
  rewrite sendPrompt_settle_not_ok by discriminate.
  now rewrite errorValue_truthy.
Qed.







Lemma respondTo_unreadable (outcome : FetchOutcome) :
  unreadable outcome = true -> respondTo outcome = unreachableResponse.
Proof.
  destruct outcome as [reason|ok [data|syntaxError]]; try reflexivity.
  destruct data; try discriminate. intros _. now destruct ok.
Qed.

(** When the provider cannot be read (the call is rejected, or the body of
    its answer is not JSON or is null) and the credential resolves, a round
    from a prompt that is not blank sent while idle ends with the prompt
    added to the conversation, no assistant message, the component idle,
    and the route's text about the provider being out of reach as error. *)
Theorem exchange_provider_unreadable
    (provider : ProviderRequest -> FetchOutcome) (e1 e2 : Entropy)
    (rawPrompt : string) (st : ChatState) (w w' : World) (key : string) :
  trim rawPrompt <> EmptyString -> isLoading st = false ->
  getApiKey w = (Some key, w') ->
  (forall request, unreadable (provider request) = true) ->
  let settled := fst (exchange provider e1 e2 rawPrompt st w) in
  messages settled = messages st ++ [newMessage e1 user (trim rawPrompt)]
  /\ error settled = Some "Unable to reach OpenRouter. Please try again."
  /\ isLoading settled = false
  /\ length (providerCalls (snd (exchange provider e1 e2 rawPrompt st w)))
     = S (length (providerCalls w)).
Proof.
  intros Hp Hl Hkey Hprov settled. subst settled. unfold exchange.
  rewrite sendPrompt_begin_effective by assumption.
  destruct (outboundBody_after_submit (messages st) (newMessage e1 user (trim rawPrompt)))
    as (entry & safe & Hs); [cbn [content newMessage]; now rewrite trim_idem|].
  rewrite (POST_with_key provider _ w w' key Hkey), Hs. cbv zeta.
  rewrite respondTo_unreadable by apply Hprov.
  unfold unreachableResponse.
  rewrite (settle_fetched_error e2 _ 502) by (auto || reflexivity).
  cbn [fst snd messages error isLoading providerCalls noteProviderCall].
  repeat split. rewrite length_app. simpl.
  pose proof (getApiKey_calls w) as Hc. rewrite Hkey in Hc. simpl in Hc.
  rewrite Hc. lia.
Qed.

(** The theorem at the third scenario of the specification: the transport
    to the provider fails. *)
Lemma exchange_provider_unreadable_witness :
  let e0 := {| now := 1700000000000; random36 := "0.4fzyo82mvyr" |} in
  let e1 := {| now := 1700000000500; random36 := "0.b1x7k2p9q" |} in
  let e2 := {| now := 1700000002100; random36 := "0.zz3a" |} in
  let w :=
    {| env_OPENROUTER_API_KEY := Some "sk-test";
       env_NEXT_PUBLIC_SITE_URL := None;
       parentEnvFile := Throw ThrownOther;
       fileReads := 0;
       providerCalls := [] |} in
  let provider :=
    fun _ : ProviderRequest => FetchRejected (ThrownError "fetch failed") in
  let settled := fst (exchange provider e1 e2 "hello" (DigitalTwinChat e0) w) in
  messages settled = messages (DigitalTwinChat e0) ++ [newMessage e1 user (trim "hello")]
  /\ error settled = Some "Unable to reach OpenRouter. Please try again."
  /\ isLoading settled = false
  /\ length (providerCalls
               (snd (exchange provider e1 e2 "hello" (DigitalTwinChat e0) w)))
     = S (length (providerCalls w)).
Proof.
  intros e0 e1 e2 w provider settled.
  apply (exchange_provider_unreadable provider e1 e2 "hello" (DigitalTwinChat e0)
           w w "sk-test");
    (reflexivity || discriminate).
Defined.

End ExchangeFacts.
